(** * Mistri.AI: the semantic router, the ingestion pipeline and the scoped search

    A shallow embedding of

    - [detect_intent] of [backend/main.py] (the intent router),
    - [RAGIngestor.ingest_error_codes] of [backend/rag_ingest.py] with the
      helpers it calls ([format_error_text], [generate_embedding]),
    - the category constants of [backend/config.py],

    and of the retrieval contract of the specification ([backend/rag_retrieve.py]
    is imported by [main.py] but its text is not part of the sources at hand).

    Conventions.
    - A Python [str] is a sequence of Unicode code points: [list N].  Literals
      are written as Rocq strings and injected with [str].
    - [str.upper], [str.lower] and the [\w] / [\d] classes of the [re] module are
      tables of the Python runtime.  The router is defined over arbitrary such
      tables (Section variables); [Ascii] gives their restriction to ASCII
      text, on which concrete queries are evaluated.
    - Floating point numbers are modelled by rationals; no statement below
      depends on rounding.
    - Logging and file writes are recorded as an ordered list of effects. *)

From Stdlib Require Import QArith Ascii String.
From stdpp Require Import gmap strings list fin_maps sorting.
Close Scope Q_scope.

(** ** backend/config.py: category constants *)

Definition CATEGORY_ERROR_CODES : string := "ERROR_CODES".
Definition CATEGORY_SCHEMATICS : string := "SCHEMATICS".
Definition CATEGORY_GENERAL : string := "GENERAL".

(** ** Python strings as code point sequences *)

Definition str (s : string) : list N := N_of_ascii <$> list_ascii_of_string s.

(** The character class [[A-Z]] of the pattern (no IGNORECASE flag: ASCII
    capitals only). *)
Definition is_AZ (c : N) : bool := ((65 <=? c) && (c <=? 90))%N.

(** [needle in haystack] for strings. *)
Fixpoint startswith (needle haystack : list N) : bool :=
  match needle, haystack with
  | [], _ => true
  | _ :: _, [] => false
  | a :: needle', b :: haystack' => (a =? b)%N && startswith needle' haystack'
  end.

Fixpoint str_in (needle haystack : list N) : bool :=
  startswith needle haystack ||
  match haystack with
  | [] => false
  | _ :: haystack' => str_in needle haystack'
  end.

(** ** backend/main.py: detect_intent *)

Section Router.

(** [str.upper] and [str.lower]. *)
Variable str_upper : list N → list N.
Variable str_lower : list N → list N.
(** The classes [\w] and [\d] of [re] on [str] patterns. *)
Variable unicode_word : N → bool.
Variable unicode_digit : N → bool.

Definition is_word (c : option N) : bool := from_option unicode_word false c.

(** [\b] between the character before the position (if any) and the
    character at the position (if any). *)
Definition word_boundary (prev next : option N) : bool :=
  xorb (is_word prev) (is_word next).

(** [\d?\b], tried after the letters; [prev] is the last letter consumed.
    The optional digit is greedy: first with a digit, then without. *)
Definition match_digit_boundary (prev : N) (rest : list N) : bool :=
  match rest with
  | d :: rest' => unicode_digit d && word_boundary (Some d) (head rest')
  | [] => false
  end
  || word_boundary (Some prev) (head rest).

(** [[A-Z]{1,3}] followed by the rest of the pattern: one letter, then up
    to [more] further letters, the longest run first. *)
Fixpoint match_letters (more : nat) (s : list N) : bool :=
  match s with
  | c :: s' =>
      is_AZ c &&
      (match more with
       | S more' => match_letters more' s'
       | O => false
       end
       || match_digit_boundary c s')
  | [] => false
  end.

(** The pattern [\b[A-Z]{1,3}\d?\b] anchored at one position. *)
Definition match_at (prev : option N) (s : list N) : bool :=
  word_boundary prev (head s) && match_letters 2 s.

(** [re.search]: every start position from left to right, the end of the
    string included. *)
Fixpoint search_from (prev : option N) (s : list N) : bool :=
  match_at prev s ||
  match s with
  | [] => false
  | c :: s' => search_from (Some c) s'
  end.

Definition re_search_error_code_pattern (s : list N) : bool :=
  search_from None s.

Definition error_keywords : list (list N) :=
  [str "error"; str "code"; str "display"; str "showing"; str "flashing"].

(** The value [detect_intent] returns; the [logger.info] line of each branch
    does not bear on it and is left out. *)
Definition detect_intent (text : list N) (has_image : bool) : option string :=
  if has_image then Some CATEGORY_SCHEMATICS
  else if re_search_error_code_pattern (str_upper text)
  then Some CATEGORY_ERROR_CODES
  else if existsb (λ keyword, str_in keyword (str_lower text)) error_keywords
  then Some CATEGORY_ERROR_CODES
  else None.

(** *** The routing rules in the words of the specification *)

(** "1 to 3 uppercase letters, optionally followed by a single digit" *)
Definition error_code_shaped (tok : list N) : Prop :=
  ∃ letters digit,
    tok = letters ++ digit ∧
    1 ≤ length letters ≤ 3 ∧ Forall (λ c, is_AZ c = true) letters ∧
    length digit ≤ 1 ∧ Forall (λ c, unicode_digit c = true) digit.

(** "as a whole word": no word character touches the token. *)
Definition whole_word (pre post : list N) : Prop :=
  is_word (last pre) = false ∧ is_word (head post) = false.

Definition contains_error_code_token (s : list N) : Prop :=
  ∃ pre tok post,
    s = pre ++ tok ++ post ∧ error_code_shaped tok ∧ whole_word pre post.

Definition contains_substring (kw s : list N) : Prop :=
  ∃ pre post, s = pre ++ kw ++ post.

Definition contains_error_keyword (s : list N) : Prop :=
  ∃ kw, kw ∈ error_keywords ∧ contains_substring kw s.

(** Auxiliary forms of the same wording, used to follow the matcher. *)

(** A run of at most [n] letters, an optional digit, and no word character
    behind. *)
Definition token_then (n : nat) (s : list N) : Prop :=
  ∃ letters digit post,
    s = letters ++ digit ++ post ∧
    1 ≤ length letters ≤ n ∧ Forall (λ c, is_AZ c = true) letters ∧
    length digit ≤ 1 ∧ Forall (λ c, unicode_digit c = true) digit ∧
    is_word (head post) = false.

(** The character before a token that follows [pre], when the string
    itself follows [prev]. *)
Definition char_before (prev : option N) (pre : list N) : option N :=
  match last pre with
  | Some c => Some c
  | None => prev
  end.

End Router.

(** *** The tables on ASCII text *)

Module Ascii.

Definition is_az (c : N) : bool := ((97 <=? c) && (c <=? 122))%N.
Definition is_09 (c : N) : bool := ((48 <=? c) && (c <=? 57))%N.

Definition upper : list N → list N :=
  fmap (λ c, if is_az c then (c - 32)%N else c).
Definition lower : list N → list N :=
  fmap (λ c, if is_AZ c then (c + 32)%N else c).
Definition word (c : N) : bool :=
  is_AZ c || is_az c || is_09 c || (c =? 95)%N.
Definition digit (c : N) : bool := is_09 c.

Definition detect_intent : list N → bool → option string :=
  detect_intent upper lower word digit.

End Ascii.

Definition is_ascii (s : list N) : Prop := Forall (λ c, (c < 128)%N) s.

(** Tables that are the ASCII ones on ASCII text, as those of Python are. *)
Record agrees_with_ascii (str_upper str_lower : list N → list N)
    (unicode_word unicode_digit : N → bool) : Prop := {
  upper_ascii : ∀ s, is_ascii s → str_upper s = Ascii.upper s;
  lower_ascii : ∀ s, is_ascii s → str_lower s = Ascii.lower s;
  word_ascii : ∀ c, (c < 128)%N → unicode_word c = Ascii.word c;
  digit_ascii : ∀ c, (c < 128)%N → unicode_digit c = Ascii.digit c
}.

(** An ordinary letter, of either case. *)
Definition is_letter (c : N) : bool := is_AZ c || Ascii.is_az c.

(** ** backend/rag_ingest.py: RAGIngestor *)

(** One row of the CSV as [load_error_codes] hands it over (reading the CSV
    with pandas is outside the model). *)
Record error_code := {
  code : list N;
  name : list N;
  description : list N
}.

(** One entry of [metadata]: the dict with the keys ['id'], ['category'],
    ['type'], ['code'], ['name'], ['description'], ['text']. *)
Record metadata_entry := {
  md_id : nat;
  md_category : string;
  md_type : string;
  md_code : list N;
  md_name : list N;
  md_description : list N;
  md_text : list N
}.

(** [faiss.IndexFlatL2]: the dimension and the stored rows; row [i] is the
    [i]-th vector added. *)
Record faiss_index := {
  d : nat;
  xb : list (list Q)
}.

Definition IndexFlatL2 (dimension : nat) : faiss_index :=
  {| d := dimension; xb := [] |}.
Definition index_add (index : faiss_index) (x : list (list Q)) : faiss_index :=
  {| d := d index; xb := xb index ++ x |}.
Definition ntotal (index : faiss_index) : nat := length (xb index).

(** What the [logger] calls say; numbers and strings are kept as data. *)
Inductive log_message :=
  | msg_starting
  | msg_processing (position total : nat) (code : list N)
  | msg_embedding_failed (text50 : list N)
  | msg_record_failed (code : list N)
  | msg_generated (count : nat) (shape : nat * nat)
  | msg_saved_index
  | msg_saved_metadata
  | msg_saved_category_index
  | msg_category_breakdown (counts : list (string * nat))
  | msg_complete (count : nat).

(** The effects of a run, in program order. *)
Inductive effect :=
  | log_info (m : log_message)
  | log_error (m : log_message)
  | write_index (index : faiss_index)
  | write_metadata (metadata : list metadata_entry)
  | write_category_index (category_index : gmap string (list nat)).

Inductive exception :=
  | ValueError_no_embeddings
  | ValueError_vstack.

Inductive outcome :=
  | returned
  | raised (e : exception).

(** The three files of [vector_store_path]: [faiss_index.bin],
    [metadata.json], [category_index.json]; [None] when the file is absent. *)
Record vector_store := {
  index_file : option faiss_index;
  metadata_file : option (list metadata_entry);
  category_index_file : option (gmap string (list nat))
}.

Definition apply_effect (fs : vector_store) (e : effect) : vector_store :=
  match e with
  | log_info _ | log_error _ => fs
  | write_index index =>
      {| index_file := Some index;
         metadata_file := metadata_file fs;
         category_index_file := category_index_file fs |}
  | write_metadata metadata =>
      {| index_file := index_file fs;
         metadata_file := Some metadata;
         category_index_file := category_index_file fs |}
  | write_category_index category_index =>
      {| index_file := index_file fs;
         metadata_file := metadata_file fs;
         category_index_file := Some category_index |}
  end.

(** The store after all effects of a run. *)
Definition run_effects (fs : vector_store) (fx : list effect) : vector_store :=
  foldl apply_effect fs fx.

(** Every state of the store a reader can find while the effects happen one
    after the other (or after an interruption between two of them). *)
Fixpoint observable_states (fs : vector_store) (fx : list effect)
  : list vector_store :=
  fs :: match fx with
        | [] => []
        | e :: fx' => observable_states (apply_effect fs e) fx'
        end.

Definition is_write (e : effect) : bool :=
  match e with
  | log_info _ | log_error _ => false
  | _ => true
  end.

(** [np.vstack] on a list of 1-D arrays: a 2-D array with one row per array;
    ValueError on an empty list or on arrays of different lengths. *)
Definition vstack (arrays : list (list Q)) : option (list (list Q)) :=
  match arrays with
  | [] => None
  | a :: _ =>
      if forallb (λ b, length b =? length a) arrays then Some arrays else None
  end.

Definition shape (a : list (list Q)) : nat * nat :=
  (length a, from_option length 0 (head a)).

Definition enumerate {A} (l : list A) : list (nat * A) := imap (λ i x, (i, x)) l.

Definition format_error_text (error : error_code) : list N :=
  str "Error " ++ code error ++ str ": " ++ name error ++ str " - "
  ++ description error.

(** The local variables of the loop of [ingest_error_codes], with the effects
    so far. *)
Record loop_state := {
  embeddings : list (list Q);
  metadata : list metadata_entry;
  category_index : gmap string (list nat);
  effects : list effect
}.

Definition loop_init : loop_state :=
  {| embeddings := [];
     metadata := [];
     category_index :=
       <[CATEGORY_ERROR_CODES := []]>
         (<[CATEGORY_SCHEMATICS := []]> (<[CATEGORY_GENERAL := []]> ∅));
     effects := [log_info msg_starting] |}.

Section Ingestor.

(** The answer of Bedrock to the [call]-th [invoke_model] of the run, on
    [text]: the embedding, or [None] when the call raises. *)
Variable bedrock : nat → list N → option (list Q).

(** [generate_embedding] logs and re-raises. *)
Definition generate_embedding (call : nat) (text : list N)
  : list effect * option (list Q) :=
  match bedrock call text with
  | Some embedding => ([], Some embedding)
  | None => ([log_error (msg_embedding_failed (take 50 text))], None)
  end.

(** The body of [for i, error in enumerate(error_codes)]: the [try] block
    and its [except Exception ... continue].  [category_index[...]] cannot
    raise KeyError: the key is in the dict literal and no key is removed. *)
Definition loop_body (total : nat) (st : loop_state) (i : nat)
    (error : error_code) : loop_state :=
  let text := format_error_text error in
  let processing := log_info (msg_processing (S i) total (code error)) in
  let '(logged, result) := generate_embedding i text in
  match result with
  | Some embedding =>
      {| embeddings := embeddings st ++ [embedding];
         metadata := metadata st ++
           [{| md_id := i;
               md_category := CATEGORY_ERROR_CODES;
               md_type := "text";
               md_code := code error;
               md_name := name error;
               md_description := description error;
               md_text := text |}];
         category_index :=
           alter (λ ids, ids ++ [i]) CATEGORY_ERROR_CODES (category_index st);
         effects := effects st ++ processing :: logged |}
  | None =>
      {| embeddings := embeddings st;
         metadata := metadata st;
         category_index := category_index st;
         effects := effects st ++ processing :: logged
                    ++ [log_error (msg_record_failed (code error))] |}
  end.

Definition loop (error_codes : list error_code) : loop_state :=
  foldl (λ st '(i, error), loop_body (length error_codes) st i error)
        loop_init (enumerate error_codes).

Definition category_breakdown (category_index : gmap string (list nat))
  : list (string * nat) :=
  (λ k, (k, length (default [] (category_index !! k))))
    <$> [CATEGORY_ERROR_CODES; CATEGORY_SCHEMATICS; CATEGORY_GENERAL].

(** [ingest_error_codes] after [load_error_codes]: the effects of the run in
    order, and how it ends. *)
Definition ingest_error_codes (error_codes : list error_code)
  : list effect * outcome :=
  let st := loop error_codes in
  match embeddings st with
  | [] => (effects st, raised ValueError_no_embeddings)
  | _ :: _ =>
      match vstack (embeddings st) with
      | None => (effects st, raised ValueError_vstack)
      | Some embeddings_array =>
          let dimension := (shape embeddings_array).2 in
          let index := index_add (IndexFlatL2 dimension) embeddings_array in
          (effects st ++
             [log_info (msg_generated (length (embeddings st))
                                      (shape embeddings_array));
              write_index index;
              log_info msg_saved_index;
              write_metadata (metadata st);
              log_info msg_saved_metadata;
              write_category_index (category_index st);
              log_info msg_saved_category_index;
              log_info (msg_category_breakdown
                          (category_breakdown (category_index st)));
              log_info (msg_complete (length (embeddings st)))],
           returned)
      end
  end.

(** The store a run leaves behind, started on the store [fs]. *)
Definition ingest_on (fs : vector_store) (error_codes : list error_code)
  : vector_store :=
  run_effects fs (ingest_error_codes error_codes).1.

(** *** What a run is expected to leave, read off the input *)

(** The rows whose embedding call succeeds, in input order, each with its
    position in the input and its embedding. *)
Definition embedded (error_codes : list error_code)
  : list (nat * error_code * list Q) :=
  omap (λ '(i, error),
          (λ embedding, (i, error, embedding))
            <$> bedrock i (format_error_text error))
       (enumerate error_codes).

(** The rows whose embedding call raises, with their positions. *)
Definition failed (error_codes : list error_code) : list (nat * error_code) :=
  filter (λ '(i, error), bedrock i (format_error_text error) = None)
         (enumerate error_codes).

Definition entry_for (i : nat) (error : error_code) : metadata_entry :=
  {| md_id := i;
     md_category := CATEGORY_ERROR_CODES;
     md_type := "text";
     md_code := code error;
     md_name := name error;
     md_description := description error;
     md_text := format_error_text error |}.

(** The log lines of one iteration. *)
Definition iteration_log (total : nat) (ie : nat * error_code) : list effect :=
  let '(i, error) := ie in
  log_info (msg_processing (S i) total (code error)) ::
  match bedrock i (format_error_text error) with
  | Some _ => []
  | None =>
      [log_error (msg_embedding_failed (take 50 (format_error_text error)));
       log_error (msg_record_failed (code error))]
  end.

(** All embeddings of a run have one length. *)
Definition uniform (error_codes : list error_code) : Prop :=
  ∃ L, Forall (λ x, length x.2 = L) (embedded error_codes).

End Ingestor.

(** The row a metadata entry was made from. *)
Definition row_of (m : metadata_entry) : error_code :=
  {| code := md_code m; name := md_name m; description := md_description m |}.

(** The Embedder contract: every embedding has the same length [L]. *)
Definition fixed_dimension (bedrock : nat → list N → option (list Q))
    (L : nat) : Prop :=
  ∀ call text embedding, bedrock call text = Some embedding → length embedding = L.

Definition empty_store : vector_store :=
  {| index_file := None; metadata_file := None; category_index_file := None |}.

(** "A reader never observes a partially written store": whatever state a
    reader finds is the store as it was before, or the store of the finished
    run. *)
Definition atomic_persist (fs : vector_store) (fx : list effect) : Prop :=
  ∀ s, s ∈ observable_states fs fx → s = fs ∨ s = run_effects fs fx.

(** *** Sample inputs *)

Definition row (c n dsc : string) : error_code :=
  {| code := str c; name := str n; description := str dsc |}.

Definition lg_rows : list error_code :=
  [row "IE" "Water Inlet Error" "Water is not filling";
   row "UE" "Unbalance Error" "Load is not balanced";
   row "OE" "Drain Error" "Water is not draining";
   row "dE" "Door Error" "Door is not closed";
   row "FE" "Overflow Error" "Water level too high"].

(** Bedrock answering every call, with a vector of length two. *)
Definition bedrock_up : nat → list N → option (list Q) :=
  λ call _, Some [inject_Z (Z.of_nat call); 1%Q].

(** Bedrock failing on the call number [k] only. *)
Definition bedrock_failing_at (k : nat) : nat → list N → option (list Q) :=
  λ call text, if call =? k then None else bedrock_up call text.

(** Bedrock failing on every call. *)
Definition bedrock_down : nat → list N → option (list Q) := λ _ _, None.

(** ** Retrieval: the Retriever of the specification

    [backend/rag_retrieve.py] is not among the sources; the definitions of
    this part follow sections 3 and 4.3 of the specification. *)

(** Modelled from the spec: the Category Index Store that
    [backend/rag_retrieve.py] loads, the three artifacts as one unit. *)
Record category_index_store := {
  vector_index : list (list Q);
  metadata_table : list metadata_entry;
  category_partition_map : gmap string (list nat)
}.

(** Modelled from the spec: a Match of [backend/rag_retrieve.py],
    [{id, code, name, description, similarity_score}]. *)
Record Match := {
  m_id : nat;
  m_code : list N;
  m_name : list N;
  m_description : list N;
  similarity_score : Q
}.

Inductive search_error :=
  | invalid_top_k
  | index_unavailable
  | embedding_unavailable.

(** Modelled from the spec: the squared Euclidean distance of the missing
    retriever. *)
Definition l2_distance (a b : list Q) : Q :=
  foldr Qplus 0%Q (zip_with (λ x y, (x - y) * (x - y))%Q a b).

(** Modelled from the spec: the similarity transform of the missing
    retriever, [1 / (1 + distance)]. *)
Definition similarity (distance : Q) : Q := (1 / (1 + distance))%Q.

(** Modelled from the spec: the ranking of the missing retriever, best
    first: higher similarity, then lower id. *)
Definition ranks_before (a b : Match) : bool :=
  negb (Qle_bool (similarity_score a) (similarity_score b))
  || (Qeq_bool (similarity_score a) (similarity_score b) && (m_id a <=? m_id b)).

Fixpoint insert_ranked (m : Match) (l : list Match) : list Match :=
  match l with
  | [] => [m]
  | x :: l' => if ranks_before m x then m :: l else x :: insert_ranked m l'
  end.

Definition sort_ranked (l : list Match) : list Match := foldr insert_ranked [] l.

(** All ids of all partitions, with repetitions. *)
Definition partition_ids (m : gmap string (list nat)) : list nat :=
  concat (map_to_list m).*2.

(** "The union of all category partitions' id sets equals the full id range
    exactly once each (no overlaps, no gaps)", for [rows] rows of the index. *)
Definition partition_invariant (m : gmap string (list nat)) (rows : nat) : Prop :=
  partition_ids m ≡ₚ seq 0 rows.

(** "dense 0..N-1", "row i ↔ Record id i". *)
Definition ids_dense (table : list metadata_entry) (rows : nat) : Prop :=
  md_id <$> table = seq 0 rows.

Section Retriever.

(** The Embedder on the query text; [None] is "embedding unavailable". *)
Variable embed : list N → option (list Q).
(** The configured similarity threshold. *)
Variable similarity_threshold : Q.

(** Modelled from the spec: the candidate id set of the missing retriever,
    the partition of the category of the hint or all ids. *)
Definition candidate_ids (store : category_index_store)
    (category_hint : option string) : list nat :=
  match category_hint with
  | Some c => default [] (category_partition_map store !! c)
  | None => seq 0 (length (vector_index store))
  end.

(** Modelled from the spec: the Match of one candidate of the missing
    retriever, from the row and the record of its id. *)
Definition score (store : category_index_store) (query : list Q) (i : nat)
  : option Match :=
  v ← vector_index store !! i;
  r ← metadata_table store !! i;
  Some {| m_id := i;
          m_code := md_code r;
          m_name := md_name r;
          m_description := md_description r;
          similarity_score := similarity (l2_distance query v) |}.

(** Modelled from the spec: [search_manual] of [backend/rag_retrieve.py],
    which is missing from the sources; this follows section 4.3 step by
    step: candidate set from the hint, distance and similarity of every
    candidate, threshold filter, ranking, truncation to [top_k]. *)
Definition search (store : category_index_store) (query_text : list N)
    (query_image_bytes : option (list N)) (category_hint : option string)
    (top_k : nat) : search_error + list Match :=
  if top_k =? 0 then inl invalid_top_k
  else if length (vector_index store) =? 0 then inl index_unavailable
  else
    match embed query_text with
    | None => inl embedding_unavailable
    | Some query =>
        let scored := omap (score store query) (candidate_ids store category_hint) in
        let kept :=
          filter (λ m, Qle_bool similarity_threshold (similarity_score m) = true)
                 scored in
        inr (take top_k (sort_ranked kept))
    end.

End Retriever.

(** The partitions agree with the records: an id listed under a category
    is the id of a record of that category. *)
Definition store_consistent (store : category_index_store) : Prop :=
  ∀ c ids i,
    category_partition_map store !! c = Some ids → i ∈ ids →
    md_category <$> metadata_table store !! i = Some c.

(** *** The store of Scenario 1 *)

Definition scenario_record (i : nat) (category c : string) : metadata_entry :=
  {| md_id := i;
     md_category := category;
     md_type := "text";
     md_code := str c;
     md_name := str c;
     md_description := [];
     md_text := str c |}.

Definition scenario_store : category_index_store :=
  {| vector_index := [[1; 0]; [0; 1]; [1; 1]]%Q;
     metadata_table :=
       [scenario_record 0 CATEGORY_ERROR_CODES "IE";
        scenario_record 1 CATEGORY_ERROR_CODES "UE";
        scenario_record 2 CATEGORY_SCHEMATICS "SCH1"];
     category_partition_map :=
       <[CATEGORY_ERROR_CODES := [0; 1]]>
         (<[CATEGORY_SCHEMATICS := [2]]> (<[CATEGORY_GENERAL := []]> ∅)) |}.

(** An Embedder that places every query next to record 2. *)
Definition scenario_embed : list N → option (list Q) :=
  λ _, Some [1; 1]%Q.

(** ** backend/main.py: generate_repair_steps and diagnose *)

(** One element of the list [search_manual] returns, as [main.py] reads it:
    the keys ['code'], ['name'], ['description'], and ['similarity_score']
    through [.get], so that it may be absent. *)
Record match_dict := {
  mt_code : list N;
  mt_name : list N;
  mt_description : list N;
  mt_similarity_score : option Q
}.

Definition step_templates : gmap (list N) (list string) :=
  list_to_map
    [(str "IE",
      ["Check the water inlet valve for blockages";
       "Inspect the inlet hose for kinks or damage";
       "Verify water pressure is adequate (min 20 PSI)";
       "Test the water level sensor"]);
     (str "UE",
      ["Redistribute the load evenly in the drum";
       "Check if the machine is level (use a spirit level)";
       "Reduce the load size if overloaded";
       "Inspect shock absorbers for wear"]);
     (str "DE",
      ["Check the drain hose for clogs";
       "Inspect the drain pump filter (usually at bottom front)";
       "Test the drain pump motor";
       "Verify drain hose is not kinked"]);
     (str "FE",
      ["Turn off water supply immediately";
       "Check water inlet valve for failure (stuck open)";
       "Inspect pressure sensor connection";
       "Test the main control board"]);
     (str "dE",
      ["Ensure door is fully closed and latched";
       "Check door seal for obstructions";
       "Inspect door lock assembly";
       "Test door switch continuity with multimeter"])].

(** The second argument of [step_templates.get]. *)
Definition generic_steps : list string :=
  ["Refer to the error description above";
   "Check all electrical connections";
   "Inspect for visible damage or wear";
   "Consider calling a professional if unsure"].

Definition generate_repair_steps (error_match : match_dict) : list string :=
  default generic_steps (step_templates !! mt_code error_match).

(** The uploaded file: its bytes, and whether [image.read()] and
    [Image.open] go through. *)
Record upload_file := {
  file_contents : list N;
  image_opens : bool
}.

(** One element of [matched_errors]. *)
Record matched_error := {
  me_code : list N;
  me_name : list N;
  me_similarity : Q
}.

Record DiagnosisResponse := {
  diagnosis : list N;
  safety_warning : list N;
  steps : list string;
  matched_errors : list matched_error;
  confidence_score : Q
}.

(** How a call of the endpoint ends: the response, or an HTTPException. *)
Inductive http_result :=
  | response_200 (response : DiagnosisResponse)
  | HTTPException (status_code : nat) (detail : list N).

(** The warning sign U+26A0 U+FE0F and the text after it. *)
Definition safety_warning_text : list N :=
  [9888; 65039]%N
  ++ str " SAFETY FIRST: Unplug the machine from power! "
  ++ str "Wait 2-3 minutes for capacitors to discharge before opening.".

Section Diagnose.

Variable str_upper : list N → list N.
Variable str_lower : list N → list N.
Variable unicode_word : N → bool.
Variable unicode_digit : N → bool.

(** [search_manual] of [backend/rag_retrieve.py], called with [query_text],
    [query_image_bytes], [intent_category] and [top_k]: the matches, or the
    text of the exception it raises. *)
Variable search_manual :
  list N → option (list N) → option string → nat → list N + list match_dict.

(** [image_bytes] after the block [if image: try ... except]: the bytes when
    the image opens, [None] without upload or when reading it fails. *)
Definition image_bytes_of (image : option upload_file) : option (list N) :=
  match image with
  | Some file => if image_opens file then Some (file_contents file) else None
  | None => None
  end.

(** [image is not None]. *)
Definition has_image_of (image : option upload_file) : bool :=
  match image with
  | Some _ => true
  | None => false
  end.

(** The endpoint [diagnose]; its [logger] lines are left out.  With matches
    of the shape above nothing after the search raises, so the last
    [except Exception] is not reached. *)
Definition diagnose (text : list N) (image : option upload_file) : http_result :=
  let image_bytes := image_bytes_of image in
  let intent_category :=
    detect_intent str_upper str_lower unicode_word unicode_digit
      text (has_image_of image) in
  match search_manual text image_bytes intent_category 3 with
  | inl e => HTTPException 500 (str "Search failed: " ++ e)
  | inr matches =>
      match matches with
      | [] =>
          HTTPException 404
            (str "No matching error codes found. Please provide more details.")
      | top_match :: _ =>
          response_200
            {| diagnosis :=
                 str "The " ++ mt_code top_match ++ str " error means: "
                 ++ mt_name top_match ++ str ". " ++ mt_description top_match;
               safety_warning := safety_warning_text;
               steps := generate_repair_steps top_match;
               matched_errors :=
                 (λ m, {| me_code := mt_code m;
                          me_name := mt_name m;
                          me_similarity := default 0%Q (mt_similarity_score m) |})
                   <$> matches;
               confidence_score := default 0%Q (mt_similarity_score top_match) |}
      end
  end.

End Diagnose.

(** A search that knows two error codes and nothing else. *)
Definition sample_search_manual
  : list N → option (list N) → option string → nat → list N + list match_dict :=
  λ _ _ intent_category _,
    match intent_category with
    | Some "SCHEMATICS" => inr []
    | _ =>
        inr [{| mt_code := str "IE";
                mt_name := str "Water Inlet Error";
                mt_description := str "Water is not filling";
                mt_similarity_score := Some (9 # 10)%Q |};
             {| mt_code := str "UE";
                mt_name := str "Unbalance Error";
                mt_description := str "Load is not balanced";
                mt_similarity_score := None |}]
    end.

(** ** backend/config.py: AWSConfig *)

Module Config.

(** The values the attributes of the instance take. *)
Inductive value :=
  | VNone
  | VStr (s : string)
  | VInt (n : Z)
  | VFloat (q : Q)
  | VBool (b : bool).

(** What can end [AWSConfig()]: the ValueError of [int(...)] or of
    [float(...)] on the text given, the ValueError of [_validate] with the
    names it lists, or an attribute that is read before it is set. *)
Inductive config_error :=
  | ValueError_int (s : string)
  | ValueError_float (s : string)
  | ValueError_missing (missing : list string)
  | AttributeError (attribute : string).

(** [os.getenv(key)] and [os.getenv(key, default)] on the environment as
    [load_dotenv()] leaves it. *)
Definition getenv (env : gmap string string) (key : string) : value :=
  match env !! key with
  | Some s => VStr s
  | None => VNone
  end.

Definition getenv_default (env : gmap string string) (key default : string)
  : string :=
  match env !! key with
  | Some s => s
  | None => default
  end.

(** [not v]. *)
Definition falsy (v : value) : bool :=
  match v with
  | VNone => true
  | VStr s => bool_decide (s = "")
  | VInt n => bool_decide (n = 0%Z)
  | VFloat q => Qeq_bool q 0
  | VBool b => negb b
  end.

(** [_validate]: on an instance, [self.__dict__] as a map from attribute
    names to values. *)
Definition _validate (self : gmap string value) : option config_error :=
  match self !! "aws_access_key_id" with
  | None => Some (AttributeError "aws_access_key_id")
  | Some key_id =>
      let missing := if falsy key_id then ["AWS_ACCESS_KEY_ID"] else [] in
      match self !! "aws_secret_access_key" with
      | None => Some (AttributeError "aws_secret_access_key")
      | Some secret =>
          let missing :=
            missing ++ if falsy secret then ["AWS_SECRET_ACCESS_KEY"] else [] in
          match missing with
          | [] => None
          | _ :: _ => Some (ValueError_missing missing)
          end
      end
  end.

(** [get_boto3_session_kwargs]. *)
Definition get_boto3_session_kwargs (self : gmap string value)
  : config_error + gmap string value :=
  match self !! "aws_access_key_id" with
  | None => inl (AttributeError "aws_access_key_id")
  | Some key_id =>
      match self !! "aws_secret_access_key" with
      | None => inl (AttributeError "aws_secret_access_key")
      | Some secret =>
          match self !! "aws_region" with
          | None => inl (AttributeError "aws_region")
          | Some region =>
              inr (<["aws_access_key_id" := key_id]>
                     (<["aws_secret_access_key" := secret]>
                        (<["region_name" := region]> ∅)))
          end
      end
  end.

Section Parsing.

(** [int(s)] and [float(s)] on a [str]; [None] is their ValueError. *)
Variable int_of_str : string → option Z.
Variable float_of_str : string → option Q.

(** [__new__]: the instance kept in [cls._instance], made on the first call. *)
Definition __new__ (_instance : option (gmap string value))
  : gmap string value :=
  match _instance with
  | None => {[ "_initialized" := VBool false ]}
  | Some instance => instance
  end.

(** [__init__]: the instance after the call, and the exception if one ends
    it.  Attributes set before the exception stay set. *)
Definition __init__ (env : gmap string string) (self : gmap string value)
  : gmap string value * option config_error :=
  match self !! "_initialized" with
  | None => (self, Some (AttributeError "_initialized"))
  | Some initialized =>
      if negb (falsy initialized) then (self, None)
      else
        let self := <["aws_access_key_id" := getenv env "AWS_ACCESS_KEY_ID"]> self in
        let self :=
          <["aws_secret_access_key" := getenv env "AWS_SECRET_ACCESS_KEY"]> self in
        let self :=
          <["aws_region" := VStr (getenv_default env "AWS_REGION" "us-east-1")]> self in
        let self :=
          <["bedrock_embed_model" :=
              VStr (getenv_default env "BEDROCK_EMBED_MODEL"
                      "amazon.titan-embed-text-v2:0")]> self in
        let self :=
          <["bedrock_llm_model" :=
              VStr (getenv_default env "BEDROCK_LLM_MODEL"
                      "anthropic.claude-3-5-sonnet-20240620-v1:0")]> self in
        let self :=
          <["vector_store_path" :=
              VStr (getenv_default env "VECTOR_STORE_PATH" "./data/vector_store")]>
            self in
        match int_of_str (getenv_default env "TOP_K_RESULTS" "3") with
        | None =>
            (self, Some (ValueError_int (getenv_default env "TOP_K_RESULTS" "3")))
        | Some top_k =>
            let self := <["top_k_results" := VInt top_k]> self in
            match float_of_str (getenv_default env "SIMILARITY_THRESHOLD" "0.6") with
            | None =>
                (self,
                 Some (ValueError_float
                         (getenv_default env "SIMILARITY_THRESHOLD" "0.6")))
            | Some threshold =>
                let self := <["similarity_threshold" := VFloat threshold]> self in
                let self := <["CATEGORY_ERROR_CODES" := VStr "ERROR_CODES"]> self in
                let self := <["CATEGORY_SCHEMATICS" := VStr "SCHEMATICS"]> self in
                let self := <["CATEGORY_GENERAL" := VStr "GENERAL"]> self in
                match _validate self with
                | Some e => (self, Some e)
                | None => (<["_initialized" := VBool true]> self, None)
                end
            end
        end
  end.

(** The call [AWSConfig()]: [__new__], then [__init__] on its result.  The
    instance is the one object [cls._instance] refers to, so the class
    attribute after the call is the instance after [__init__]. *)
Definition AWSConfig (env : gmap string string)
    (_instance : option (gmap string value))
  : option (gmap string value) * option config_error :=
  let '(self, e) := __init__ env (__new__ _instance) in
  (Some self, e).

(** Both credentials are set and not empty. *)
Definition has_credentials (env : gmap string string) : Prop :=
  (∃ s, env !! "AWS_ACCESS_KEY_ID" = Some s ∧ s ≠ "") ∧
  (∃ s, env !! "AWS_SECRET_ACCESS_KEY" = Some s ∧ s ≠ "").

(** The names [_validate] is to report. *)
Definition missing_names (env : gmap string string) : list string :=
  (if falsy (getenv env "AWS_ACCESS_KEY_ID") then ["AWS_ACCESS_KEY_ID"] else [])
  ++ (if falsy (getenv env "AWS_SECRET_ACCESS_KEY")
      then ["AWS_SECRET_ACCESS_KEY"] else []).

(** The exception the body of [__init__] is to end with, read off the
    environment: the first of a bad TOP_K_RESULTS, a bad
    SIMILARITY_THRESHOLD, and missing credentials. *)
Definition construction_error (env : gmap string string) : option config_error :=
  match int_of_str (getenv_default env "TOP_K_RESULTS" "3") with
  | None => Some (ValueError_int (getenv_default env "TOP_K_RESULTS" "3"))
  | Some _ =>
      match float_of_str (getenv_default env "SIMILARITY_THRESHOLD" "0.6") with
      | None =>
          Some (ValueError_float
                  (getenv_default env "SIMILARITY_THRESHOLD" "0.6"))
      | Some _ =>
          match missing_names env with
          | [] => None
          | _ :: _ => Some (ValueError_missing (missing_names env))
          end
      end
  end.

End Parsing.

End Config.

(** Parsers that know the two default texts, and an environment that holds
    the credentials only. *)
Definition sample_int_of_str (s : string) : option Z :=
  if decide (s = "3") then Some 3%Z else None.

Definition sample_float_of_str (s : string) : option Q :=
  if decide (s = "0.6") then Some (6 # 10)%Q else None.

Definition sample_env : gmap string string :=
  <["AWS_ACCESS_KEY_ID" := "AKIAEXAMPLE"]>
    (<["AWS_SECRET_ACCESS_KEY" := "secret"]> ∅).

(** ** test_setup.py: test_vector_store *)


(** ** Reading the log of a run *)

(** The lines "Processing i/n: code" of a log, in order. *)
Definition processing_lines (fx : list effect) : list (nat * nat * list N) :=
  omap (λ e, match e with
             | log_info (msg_processing position total c) =>
                 Some (position, total, c)
             | _ => None
             end) fx.

(** The lines "Failed to process error code ..." of a log, in order. *)
Definition failure_lines (fx : list effect) : list (list N) :=
  omap (λ e, match e with
             | log_error (msg_record_failed c) => Some c
             | _ => None
             end) fx.

(** * Properties *)

(** ** Sample queries and runs *)

Example route_IE :
  Ascii.detect_intent (str "IE error showing") false = Some "ERROR_CODES".
Proof. by vm_compute. Qed.

Example route_image :
  Ascii.detect_intent (str "IE error showing") true = Some "SCHEMATICS".
Proof. by vm_compute. Qed.

Example route_keyword :
  Ascii.detect_intent (str "water flashing") false = Some "ERROR_CODES".
Proof. by vm_compute. Qed.

Example route_none :
  Ascii.detect_intent (str "washer makes noise") false = None.
Proof. by vm_compute. Qed.

Example route_long_token :
  Ascii.detect_intent (str "ab12 washer") false = None.
Proof. by vm_compute. Qed.

Example route_code_with_digit :
  Ascii.detect_intent (str "washer says: de1!") false = Some "ERROR_CODES".
Proof. by vm_compute. Qed.

Example format_IE :
  format_error_text (row "IE" "Water Inlet Error" "Water is not filling")
  = str "Error IE: Water Inlet Error - Water is not filling".
Proof. by vm_compute. Qed.

Example ingest_all_ids :
  fmap (M := list) md_id
    <$> metadata_file (ingest_on bedrock_up empty_store lg_rows)
  = Some [0; 1; 2; 3; 4].
Proof. by vm_compute. Qed.

Example ingest_skip_ids :
  fmap (M := list) md_id
    <$> metadata_file (ingest_on (bedrock_failing_at 2) empty_store lg_rows)
  = Some [0; 1; 3; 4].
Proof. by vm_compute. Qed.

Example ingest_down :
  (ingest_error_codes bedrock_down lg_rows).2 = raised ValueError_no_embeddings.
Proof. by vm_compute. Qed.

Example ingest_mixed_dimensions :
  (ingest_error_codes (λ call _, Some (replicate call 1%Q)) lg_rows).2
  = raised ValueError_vstack.
Proof. by vm_compute. Qed.

(** ** Substring search *)

Lemma startswith_spec needle haystack :
  startswith needle haystack = true ↔ ∃ post, haystack = needle ++ post.
Proof.
  revert haystack. induction needle as [|a needle IH]; intros [|b haystack]; simpl.
  - split; [exists []; done | done].
  - split; [eexists; done | done].
  - split; [done | intros [post H]; discriminate].
  - rewrite andb_true_iff, N.eqb_eq, IH. split.
    + intros [-> [post ->]]. by exists post.
    + intros [post H]. injection H as -> ->. eauto.
Qed.

Lemma str_in_spec needle haystack :
  str_in needle haystack = true ↔ contains_substring needle haystack.
Proof.
  unfold contains_substring. induction haystack as [|b haystack IH].
  - simpl. rewrite orb_false_r, startswith_spec. split.
    + intros [post H]. by exists [], post.
    + intros (pre & post & H). symmetry in H.
      apply app_eq_nil in H as [-> H]. simpl in H. eauto.
  - cbn [str_in]. rewrite orb_true_iff, startswith_spec, IH. split.
    + intros [[post H] | (pre & post & H)].
      * by exists [], post.
      * exists (b :: pre), post. by rewrite H.
    + intros ([|c pre] & post & H); simpl in H.
      * left. eauto.
      * right. injection H as -> ->. eauto.
Qed.

(** ** The regular expression against the wording of the rule *)

Section RouterFacts.

Variable str_upper : list N → list N.
Variable str_lower : list N → list N.
Variable unicode_word : N → bool.
Variable unicode_digit : N → bool.

(** Letters and decimal digits are word characters. *)
Hypothesis AZ_word : ∀ c, is_AZ c = true → unicode_word c = true.
Hypothesis digit_word : ∀ c, unicode_digit c = true → unicode_word c = true.

Local Abbreviation is_word := (is_word unicode_word).
Local Abbreviation match_digit_boundary :=
  (match_digit_boundary unicode_word unicode_digit).
Local Abbreviation match_letters := (match_letters unicode_word unicode_digit).
Local Abbreviation match_at := (match_at unicode_word unicode_digit).
Local Abbreviation search_from := (search_from unicode_word unicode_digit).
Local Abbreviation token_then := (token_then unicode_word unicode_digit).
Local Abbreviation detect_intent :=
  (detect_intent str_upper str_lower unicode_word unicode_digit).

Lemma match_digit_boundary_spec c rest :
  unicode_word c = true →
  match_digit_boundary c rest = true ↔
  ∃ digit post,
    rest = digit ++ post ∧ length digit ≤ 1 ∧
    Forall (λ c, unicode_digit c = true) digit ∧ is_word (head post) = false.
Proof.
  intros Hc. unfold match_digit_boundary, word_boundary. simpl. rewrite Hc.
  rewrite orb_true_iff. split.
  - intros [H | H].
    + destruct rest as [|x rest]; [done|].
      apply andb_true_iff in H as [Hd H].
      rewrite (digit_word _ Hd) in H. simpl in H.
      exists [x], rest. repeat split; [simpl; lia | by constructor |].
      by apply negb_true_iff.
    + exists [], rest. repeat split; [simpl; lia | constructor |].
      by apply negb_true_iff.
  - intros (digit & post & -> & Hlen & Hdig & Hpost).
    destruct digit as [|x [|y digit]]; simpl in *; [| |lia].
    + right. by rewrite Hpost.
    + left. apply Forall_cons in Hdig as [Hd _].
      by rewrite Hd, (digit_word _ Hd), Hpost.
Qed.

Lemma match_letters_spec more s :
  match_letters more s = true ↔ token_then (S more) s.
Proof.
  unfold token_then. revert s. induction more as [|more IH]; intros [|c s].
  - simpl. split; [done|].
    intros ([|x letters] & digit & post & H & [Hlen _] & _); [simpl in Hlen; lia | done].
  - cbn [match_letters]. rewrite andb_true_iff, orb_false_l. split.
    + intros [Hc H]. apply match_digit_boundary_spec in H; [|by apply AZ_word].
      destruct H as (digit & post & -> & Hlen & Hdig & Hpost).
      exists [c], digit, post. repeat split; simpl; try done; try lia.
      by constructor.
    + intros (letters & digit & post & H & Hlen & Hall & Hd & Hdig & Hpost).
      destruct letters as [|x [|y letters]]; simpl in *; [lia| |lia].
      injection H as -> ->. apply Forall_cons in Hall as [Hc _].
      split; [done|]. apply match_digit_boundary_spec; [by apply AZ_word|].
      by exists digit, post.
  - simpl. split; [done|].
    intros ([|x letters] & digit & post & H & [Hlen _] & _); [simpl in Hlen; lia | done].
  - cbn [match_letters]. rewrite andb_true_iff, orb_true_iff, IH. split.
    + intros [Hc [H | H]].
      * destruct H as (letters & digit & post & -> & Hlen & Hall & Hd & Hdig & Hpost).
        exists (c :: letters), digit, post.
        repeat split; simpl; try done; try lia. by constructor.
      * apply match_digit_boundary_spec in H; [|by apply AZ_word].
        destruct H as (digit & post & -> & Hlen & Hdig & Hpost).
        exists [c], digit, post. repeat split; simpl; try done; try lia.
        by constructor.
    + intros (letters & digit & post & H & Hlen & Hall & Hd & Hdig & Hpost).
      destruct letters as [|x letters]; simpl in *; [lia|].
      injection H as -> ->. apply Forall_cons in Hall as [Hc Hall].
      split; [done|]. destruct letters as [|y letters].
      * right. apply match_digit_boundary_spec; [by apply AZ_word|].
        by exists digit, post.
      * left. exists (y :: letters), digit, post.
        repeat split; simpl in *; try done; lia.
Qed.

Lemma token_then_head n s :
  token_then n s → ∃ c, head s = Some c ∧ unicode_word c = true.
Proof.
  intros ([|c letters] & digit & post & -> & Hlen & Hall & _); simpl in *; [lia|].
  apply Forall_cons in Hall as [Hc _]. exists c. split; [done | by apply AZ_word].
Qed.

Lemma match_at_spec prev s :
  match_at prev s = true ↔ is_word prev = false ∧ token_then 3 s.
Proof.
  unfold match_at. rewrite andb_true_iff, match_letters_spec. split.
  - intros [Hb Htok]. split; [|done].
    destruct (token_then_head _ _ Htok) as (c & Hhd & Hc).
    unfold word_boundary in Hb. rewrite Hhd in Hb. simpl in Hb.
    rewrite Hc, xorb_true_r in Hb. by apply negb_true_iff.
  - intros [Hprev Htok]. split; [|done].
    destruct (token_then_head _ _ Htok) as (c & Hhd & Hc).
    unfold word_boundary. rewrite Hhd, Hprev. simpl. by rewrite Hc.
Qed.

Lemma search_from_spec prev s :
  search_from prev s = true ↔
  ∃ pre rest,
    s = pre ++ rest ∧ is_word (char_before prev pre) = false ∧ token_then 3 rest.
Proof.
  revert prev. induction s as [|c s IH]; intros prev.
  - cbn [search_from]. rewrite orb_false_r, match_at_spec. split.
    + intros [Hprev Htok]. by exists [], [].
    + intros (pre & rest & H & Hprev & Htok). symmetry in H.
      apply app_eq_nil in H as [-> ->]. done.
  - cbn [search_from]. rewrite orb_true_iff, match_at_spec, IH. split.
    + intros [[Hprev Htok] | (pre & rest & -> & Hprev & Htok)].
      * by exists [], (c :: s).
      * exists (c :: pre), rest. split; [done|]. split; [|done].
        unfold char_before in *. rewrite last_cons.
        by destruct (last pre).
    + intros ([|x pre] & rest & H & Hprev & Htok); simpl in H.
      * left. by subst rest.
      * right. injection H as -> ->. exists pre, rest.
        split; [done|]. split; [|done].
        unfold char_before in *. rewrite last_cons in Hprev.
        by destruct (last pre).
Qed.

Lemma re_search_spec s :
  re_search_error_code_pattern unicode_word unicode_digit s = true ↔
  contains_error_code_token unicode_word unicode_digit s.
Proof.
  unfold re_search_error_code_pattern, contains_error_code_token.
  rewrite search_from_spec. split.
  - intros (pre & rest & -> & Hprev & Htok).
    destruct Htok as (letters & digit & post & -> & Hlen & Hall & Hd & Hdig & Hpost).
    exists pre, (letters ++ digit), post. rewrite <- (assoc_L (++)).
    split; [done|]. split; [by exists letters, digit|].
    split; [|done]. unfold char_before in Hprev. by destruct (last pre).
  - intros (pre & tok & post & -> & Hshape & Hpre & Hpost).
    destruct Hshape as (letters & digit & -> & Hlen & Hall & Hd & Hdig).
    exists pre, (letters ++ digit ++ post). rewrite <- (assoc_L (++)).
    split; [done|]. split.
    + unfold char_before. by destruct (last pre).
    + by exists letters, digit, post.
Qed.

Lemma any_keyword_spec s :
  existsb (λ keyword, str_in keyword s) error_keywords = true ↔
  contains_error_keyword s.
Proof.
  unfold contains_error_keyword. rewrite existsb_exists.
  split; intros (kw & Hin & H); exists kw.
  - by rewrite list_elem_of_In, <- str_in_spec.
  - by rewrite <- list_elem_of_In, str_in_spec.
Qed.

(** C4.  With an image attached the router answers SCHEMATICS, whatever the
    text is: an error-code-shaped token or an error keyword in it changes
    nothing. *)
Theorem detect_intent_image_schematics (text : list N) :
  detect_intent text true = Some CATEGORY_SCHEMATICS.
Proof. reflexivity. Qed.

(** C5.  Without an image the rules are tried in a fixed order: a whole-word
    token of one to three capital letters and an optional digit in the
    uppercased text gives ERROR_CODES; otherwise one of the keywords error,
    code, display, showing, flashing as a substring of the lowercased text
    gives ERROR_CODES; otherwise the answer is None. *)
Theorem detect_intent_text_rules (text : list N) :
  (contains_error_code_token unicode_word unicode_digit (str_upper text) →
   detect_intent text false = Some CATEGORY_ERROR_CODES) ∧
  (¬ contains_error_code_token unicode_word unicode_digit (str_upper text) →
   contains_error_keyword (str_lower text) →
   detect_intent text false = Some CATEGORY_ERROR_CODES) ∧
  (¬ contains_error_code_token unicode_word unicode_digit (str_upper text) →
   ¬ contains_error_keyword (str_lower text) →
   detect_intent text false = None).
Proof.
  unfold detect_intent.
  rewrite <- re_search_spec, <- any_keyword_spec.
  destruct (re_search_error_code_pattern _ _ _);
    destruct (existsb _ _); naive_solver.
Qed.

End RouterFacts.

(** ** The router on ASCII text *)

Lemma ascii_AZ_word c : is_AZ c = true → Ascii.word c = true.
Proof. unfold Ascii.word. by intros ->. Qed.

Lemma ascii_digit_word c : Ascii.digit c = true → Ascii.word c = true.
Proof. unfold Ascii.word, Ascii.digit. intros ->. by rewrite orb_true_r. Qed.

Lemma ascii_agrees :
  agrees_with_ascii Ascii.upper Ascii.lower Ascii.word Ascii.digit.
Proof. by constructor. Qed.

Lemma str_is_ascii_by_compute (s : list N) :
  forallb (λ c, c <? 128)%N s = true → is_ascii s.
Proof.
  intros H. apply Forall_forall. intros c Hc.
  rewrite forallb_forall in H. apply N.ltb_lt, H. by apply list_elem_of_In.
Qed.

Section ShortWords.

Variable str_upper : list N → list N.
Variable str_lower : list N → list N.
Variable unicode_word : N → bool.
Variable unicode_digit : N → bool.

Hypothesis tables : agrees_with_ascii str_upper str_lower unicode_word unicode_digit.
Hypothesis digit_word : ∀ c, unicode_digit c = true → unicode_word c = true.

Lemma AZ_word_of_agreement c : is_AZ c = true → unicode_word c = true.
Proof.
  intros Hc. rewrite (word_ascii _ _ _ _ tables).
  - by apply ascii_AZ_word.
  - unfold is_AZ in Hc. apply andb_true_iff in Hc as [_ Hc].
    apply N.leb_le in Hc. lia.
Qed.

(** Uppercasing leaves a character that is not a word character alone. *)
Lemma upper_keeps_non_word (c : option N) :
  (∀ x, c = Some x → (x < 128)%N) →
  is_word unicode_word c = false →
  is_word unicode_word ((λ c, if Ascii.is_az c then (c - 32)%N else c) <$> c) = false.
Proof.
  destruct c as [x|]; [|done]. simpl. intros Hx Hw.
  specialize (Hx x eq_refl). pose proof Hw as Hasc.
  rewrite (word_ascii _ _ _ _ tables) in Hasc by done.
  unfold Ascii.word in Hasc.
  destruct (Ascii.is_az x); [|done].
  by destruct (is_AZ x).
Qed.

(** C10.  A query without image that contains a standalone word of one to
    three ordinary letters is routed to ERROR_CODES, although it need hold
    neither an error code nor an error keyword ("my washer is loud"): the
    text is uppercased before the pattern is tried, so the short word is a
    whole-word run of capitals. *)
Theorem short_word_routes_to_error_codes (pre w post : list N) :
  is_ascii (pre ++ w ++ post) →
  1 ≤ length w ≤ 3 →
  Forall (λ c, is_letter c = true) w →
  whole_word unicode_word pre post →
  detect_intent str_upper str_lower unicode_word unicode_digit
    (pre ++ w ++ post) false = Some CATEGORY_ERROR_CODES.
Proof.
  intros Hascii Hlen Hw [Hpre Hpost].
  unfold detect_intent.
  rewrite (proj2 (re_search_spec _ _ AZ_word_of_agreement digit_word _)); [done|].
  rewrite (upper_ascii _ _ _ _ tables) by done.
  unfold Ascii.upper. rewrite !fmap_app.
  apply Forall_app in Hascii as [Hapre Hascii].
  apply Forall_app in Hascii as [Haw Hapost].
  eexists _, _, _. split; [done|]. split.
  - eexists _, []. rewrite app_nil_r. split; [done|].
    rewrite length_fmap. split; [done|]. split; [|by split; [simpl; lia|]].
    apply Forall_fmap. eapply Forall_impl; [exact Hw|].
    intros c Hc. simpl. unfold is_letter in Hc.
    destruct (Ascii.is_az c) eqn:Haz; [|by rewrite orb_false_r in Hc].
    unfold Ascii.is_az in Haz. apply andb_true_iff in Haz as [Hlo Hhi].
    apply N.leb_le in Hlo, Hhi.
    unfold is_AZ. apply andb_true_iff. split; apply N.leb_le; lia.
  - split.
    + rewrite fmap_last. apply upper_keeps_non_word; [|done].
      intros x Hx%last_Some_elem_of. by eapply Forall_forall in Hapre.
    + replace (head (_ <$> post)) with
        ((λ c, if Ascii.is_az c then (c - 32)%N else c) <$> head post)
        by (by destruct post).
      apply upper_keeps_non_word; [|done].
      intros x Hx%head_Some_elem_of. by eapply Forall_forall in Hapost.
Qed.

End ShortWords.

Lemma detect_intent_text_rules_witness :
  (∀ c, is_AZ c = true → Ascii.word c = true) ∧
  (∀ c, Ascii.digit c = true → Ascii.word c = true) ∧
  Ascii.detect_intent (str "IE error showing") false = Some "ERROR_CODES" ∧
  Ascii.detect_intent (str "water flashing") false = Some "ERROR_CODES" ∧
  Ascii.detect_intent (str "washer makes noise") false = None.
Proof.
  split; [exact ascii_AZ_word|]. split; [exact ascii_digit_word|].
  pose proof (detect_intent_text_rules Ascii.upper Ascii.lower Ascii.word
                Ascii.digit ascii_AZ_word ascii_digit_word) as rules.
  split; [|split].
  - destruct (rules (str "IE error showing")) as (rule & _). apply rule.
    apply (re_search_spec _ _ ascii_AZ_word ascii_digit_word). by vm_compute.
  - destruct (rules (str "water flashing")) as (_ & rule & _). apply rule.
    + rewrite <- (re_search_spec _ _ ascii_AZ_word ascii_digit_word). by vm_compute.
    + apply any_keyword_spec. by vm_compute.
  - destruct (rules (str "washer makes noise")) as (_ & _ & rule). apply rule.
    + rewrite <- (re_search_spec _ _ ascii_AZ_word ascii_digit_word). by vm_compute.
    + rewrite <- any_keyword_spec. by vm_compute.
Defined.

Lemma short_word_routes_to_error_codes_witness :
  let text := str "my washer is loud" in
  ¬ contains_error_code_token Ascii.word Ascii.digit text ∧
  ¬ contains_error_keyword (Ascii.lower text) ∧
  Ascii.detect_intent text false = Some "ERROR_CODES".
Proof.
  split; [|split].
  - rewrite <- (re_search_spec _ _ ascii_AZ_word ascii_digit_word). by vm_compute.
  - rewrite <- any_keyword_spec. by vm_compute.
  - apply (short_word_routes_to_error_codes Ascii.upper Ascii.lower Ascii.word
             Ascii.digit ascii_agrees ascii_digit_word
             (str "my washer ") (str "is") (str " loud")).
    + apply str_is_ascii_by_compute. reflexivity.
    + simpl. lia.
    + repeat constructor.
    + split; reflexivity.
Defined.

(** ** The ingestion loop *)

Section IngestorFacts.

Variable bedrock : nat → list N → option (list Q).

Local Abbreviation embedded := (embedded bedrock).
Local Abbreviation failed := (failed bedrock).
Local Abbreviation loop_body := (loop_body bedrock).
Local Abbreviation ingest_error_codes := (ingest_error_codes bedrock).
Local Abbreviation ingest_on := (ingest_on bedrock).

Lemma enumerate_snoc {A} (l : list A) x :
  enumerate (l ++ [x]) = enumerate l ++ [(length l, x)].
Proof. unfold enumerate. rewrite imap_app. simpl. by rewrite Nat.add_0_r. Qed.

Lemma embedded_snoc error_codes error :
  embedded (error_codes ++ [error]) =
  embedded error_codes ++
  match bedrock (length error_codes) (format_error_text error) with
  | Some embedding => [(length error_codes, error, embedding)]
  | None => []
  end.
Proof.
  unfold embedded. rewrite enumerate_snoc, omap_app. f_equal. simpl.
  by destruct (bedrock _ _).
Qed.

(** The state of the loop after any number of rows: it holds exactly the
    rows that were embedded, under their positions in the input. *)
Lemma loop_state_spec total error_codes :
  let st := foldl (λ st '(i, error), loop_body total st i error)
                  loop_init (enumerate error_codes) in
  embeddings st = (λ x, x.2) <$> embedded error_codes ∧
  metadata st = (λ x, entry_for x.1.1 x.1.2) <$> embedded error_codes ∧
  category_index st =
    <[CATEGORY_ERROR_CODES := (λ x, x.1.1) <$> embedded error_codes]>
      (<[CATEGORY_SCHEMATICS := []]> (<[CATEGORY_GENERAL := []]> ∅)) ∧
  effects st =
    log_info msg_starting :: (enumerate error_codes ≫= iteration_log bedrock total).
Proof.
  induction error_codes as [|error error_codes IH] using rev_ind; [done|].
  rewrite enumerate_snoc, foldl_snoc, embedded_snoc, bind_app.
  cbn zeta in IH. destruct IH as (IHe & IHm & IHc & IHx).
  cbn zeta. unfold loop_body at 1 3 5 7, generate_embedding. simpl.
  destruct (bedrock (length error_codes) (format_error_text error)) as [v|]; simpl.
  - by rewrite IHe, IHm, IHc, IHx, !fmap_app, alter_insert_eq.
  - by rewrite IHe, IHm, IHc, IHx, !app_nil_r.
Qed.

Lemma loop_spec error_codes :
  let st := loop bedrock error_codes in
  embeddings st = (λ x, x.2) <$> embedded error_codes ∧
  metadata st = (λ x, entry_for x.1.1 x.1.2) <$> embedded error_codes ∧
  category_index st =
    <[CATEGORY_ERROR_CODES := (λ x, x.1.1) <$> embedded error_codes]>
      (<[CATEGORY_SCHEMATICS := []]> (<[CATEGORY_GENERAL := []]> ∅)) ∧
  effects st =
    log_info msg_starting ::
    (enumerate error_codes ≫= iteration_log bedrock (length error_codes)).
Proof. apply loop_state_spec. Qed.

Lemma loop_effects_are_logs error_codes :
  Forall (λ e, is_write e = false) (effects (loop bedrock error_codes)).
Proof.
  destruct (loop_spec error_codes) as (_ & _ & _ & ->).
  constructor; [done|]. apply Forall_bind, Forall_forall.
  intros [i error] _. simpl. destruct (bedrock _ _); repeat constructor.
Qed.

Lemma run_effects_logs fs fx :
  Forall (λ e, is_write e = false) fx → run_effects fs fx = fs.
Proof.
  unfold run_effects. induction 1 as [|e fx He _ IH]; [done|].
  simpl. by destruct e.
Qed.

Lemma run_effects_app fs fx fx' :
  run_effects fs (fx ++ fx') = run_effects (run_effects fs fx) fx'.
Proof. apply foldl_app. Qed.

Lemma observable_states_logs fs fx :
  Forall (λ e, is_write e = false) fx →
  Forall (λ s, s = fs) (observable_states fs fx).
Proof.
  induction 1 as [|e fx He _ IH]; simpl; [by repeat constructor|].
  constructor; [done|]. by destruct e.
Qed.

Lemma vstack_Some arrays a : vstack arrays = Some a → a = arrays.
Proof. unfold vstack. repeat case_match; congruence. Qed.

Lemma vstack_uniform L arrays :
  arrays ≠ [] → Forall (λ v, length v = L) arrays → vstack arrays = Some arrays.
Proof.
  intros Hne Hall. destruct arrays as [|a arrays]; [done|].
  unfold vstack. rewrite (proj2 (forallb_forall _ _)); [done|].
  intros b Hb%list_elem_of_In. apply Nat.eqb_eq.
  rewrite Forall_forall in Hall. rewrite (Hall b Hb).
  symmetry. apply Hall. constructor.
Qed.

Lemma embedded_dimension L error_codes :
  fixed_dimension bedrock L →
  Forall (λ v, length v = L) ((λ x, x.2) <$> embedded error_codes).
Proof.
  intros HL. apply Forall_fmap, Forall_forall.
  intros [[i error] v] Hin. simpl.
  apply list_elem_of_omap in Hin as ([j e] & _ & Hb).
  destruct (bedrock j (format_error_text e)) eqn:E; simplify_eq/=. eauto.
Qed.

(** A run returns exactly when [np.vstack] accepts a non-empty list of
    embeddings, and it then leaves the three files below. *)
Lemma ingest_returned error_codes :
  (ingest_error_codes error_codes).2 = returned →
  let E := (λ x, x.2) <$> embedded error_codes in
  vstack E = Some E ∧ E ≠ [] ∧
  (ingest_error_codes error_codes).1 =
    effects (loop bedrock error_codes) ++
    [log_info (msg_generated (length E) (shape E));
     write_index {| d := (shape E).2; xb := E |};
     log_info msg_saved_index;
     write_metadata ((λ x, entry_for x.1.1 x.1.2) <$> embedded error_codes);
     log_info msg_saved_metadata;
     write_category_index
       (<[CATEGORY_ERROR_CODES := (λ x, x.1.1) <$> embedded error_codes]>
          (<[CATEGORY_SCHEMATICS := []]> (<[CATEGORY_GENERAL := []]> ∅)));
     log_info msg_saved_category_index;
     log_info (msg_category_breakdown
                 (category_breakdown
                    (<[CATEGORY_ERROR_CODES := (λ x, x.1.1) <$> embedded error_codes]>
                       (<[CATEGORY_SCHEMATICS := []]> (<[CATEGORY_GENERAL := []]> ∅)))));
     log_info (msg_complete (length E))].
Proof.
  unfold ingest_error_codes.
  destruct (loop_spec error_codes) as (He & Hm & Hc & _). cbn zeta in *.
  rewrite Hm, Hc, He. cbn zeta.
  destruct (_ <$> embedded error_codes) as [|v E] eqn:HE; [done|].
  destruct (vstack (v :: E)) as [a|] eqn:Hv; [|done].
  apply vstack_Some in Hv as ->. by intros _.
Qed.

Lemma ingest_returned_store error_codes fs :
  (ingest_error_codes error_codes).2 = returned →
  let E := (λ x, x.2) <$> embedded error_codes in
  ingest_on fs error_codes =
  {| index_file := Some {| d := (shape E).2; xb := E |};
     metadata_file :=
       Some ((λ x, entry_for x.1.1 x.1.2) <$> embedded error_codes);
     category_index_file :=
       Some (<[CATEGORY_ERROR_CODES := (λ x, x.1.1) <$> embedded error_codes]>
               (<[CATEGORY_SCHEMATICS := []]> (<[CATEGORY_GENERAL := []]> ∅))) |}.
Proof.
  intros Hret. destruct (ingest_returned _ Hret) as (_ & _ & Hfx).
  unfold ingest_on. rewrite Hfx, run_effects_app.
  by rewrite (run_effects_logs fs (effects (loop bedrock error_codes)))
    by apply loop_effects_are_logs.
Qed.

Lemma ingest_returns_if_uniform L error_codes :
  fixed_dimension bedrock L → embedded error_codes ≠ [] →
  (ingest_error_codes error_codes).2 = returned.
Proof.
  intros HL Hne. unfold ingest_error_codes.
  destruct (loop_spec error_codes) as (He & _). cbn zeta in *. rewrite He.
  rewrite (vstack_uniform L); [| |by apply embedded_dimension].
  - destruct (embedded error_codes); done.
  - by destruct (embedded error_codes).
Qed.

Lemma embedded_failed_length error_codes :
  length (embedded error_codes) + length (failed error_codes)
  = length error_codes.
Proof.
  induction error_codes as [|error error_codes IH] using rev_ind; [done|].
  unfold failed in *. rewrite embedded_snoc, enumerate_snoc, filter_app.
  rewrite !length_app.
  destruct (bedrock (length error_codes) (format_error_text error)) eqn:Hb.
  - rewrite filter_cons_False by (simpl; congruence). simpl. lia.
  - rewrite filter_cons_True by done. simpl. lia.
Qed.

End IngestorFacts.

(** ** What a run leaves behind *)

Section IngestionClaims.

Variable bedrock : nat → list N → option (list Q).

Local Abbreviation embedded := (embedded bedrock).
Local Abbreviation failed := (failed bedrock).
Local Abbreviation ingest_error_codes := (ingest_error_codes bedrock).
Local Abbreviation ingest_on := (ingest_on bedrock).

Lemma embedded_nil_if_down error_codes :
  (∀ i error, error_codes !! i = Some error →
     bedrock i (format_error_text error) = None) →
  embedded error_codes = [].
Proof.
  induction error_codes as [|error error_codes IH] using rev_ind; [done|].
  intros Hdown. rewrite embedded_snoc, IH.
  - rewrite (Hdown (length error_codes) error); [done|].
    by rewrite lookup_app_r, Nat.sub_diag.
  - intros i e Hi. apply Hdown. by apply lookup_app_l_Some.
Qed.

Lemma failed_is_logged error_codes i error :
  (i, error) ∈ failed error_codes →
  log_error (msg_record_failed (code error))
    ∈ effects (loop bedrock error_codes).
Proof.
  intros [Hnone Hin]%list_elem_of_filter.
  destruct (loop_spec bedrock error_codes) as (_ & _ & _ & ->).
  right. apply list_elem_of_bind. exists (i, error). split; [|done].
  simpl in *. rewrite Hnone. set_solver.
Qed.

(** C6.  A failing embedding call costs its own row only: the row is logged
    and left out, the loop goes on, and the store holds exactly the rows
    that were embedded, in input order (as many as the input has rows less
    the failed ones; five rows with one failure give four). *)
Theorem embedding_failure_skips_record (L : nat)
    (error_codes : list error_code) (fs : vector_store) :
  fixed_dimension bedrock L →
  embedded error_codes ≠ [] →
  (ingest_error_codes error_codes).2 = returned ∧
  (∃ index md ci,
     ingest_on fs error_codes =
       {| index_file := Some index;
          metadata_file := Some md;
          category_index_file := Some ci |} ∧
     row_of <$> md = (λ x, x.1.2) <$> embedded error_codes ∧
     xb index = (λ x, x.2) <$> embedded error_codes ∧
     length md = length error_codes - length (failed error_codes) ∧
     ntotal index = length md) ∧
  (∀ i error, (i, error) ∈ failed error_codes →
     log_error (msg_record_failed (code error))
       ∈ (ingest_error_codes error_codes).1) ∧
  log_info (msg_complete (length error_codes - length (failed error_codes)))
    ∈ (ingest_error_codes error_codes).1.
Proof.
  intros HL Hne.
  pose proof (ingest_returns_if_uniform bedrock L _ HL Hne) as Hret.
  pose proof (embedded_failed_length bedrock error_codes) as Hlen.
  destruct (ingest_returned bedrock _ Hret) as (_ & _ & Hfx).
  split; [done|]. split; [|split].
  - eexists _, _, _. split; [by apply ingest_returned_store|].
    simpl. unfold ntotal. simpl. rewrite !length_fmap.
    split; [|split; [done | split; [lia | done]]].
    rewrite <- list_fmap_compose. apply list_fmap_ext.
    intros k [[j e] v] _. by destruct e.
  - intros i error Hin. rewrite Hfx. apply elem_of_app. left.
    by eapply failed_is_logged.
  - rewrite Hfx, length_fmap.
    replace (length error_codes - _) with (length (embedded error_codes)) by lia.
    set_solver.
Qed.

(** C7.  When no row is embedded, and so for an empty input, the run raises
    the ValueError of [if not embeddings] before any file is written: the
    effects are log lines only and whatever store was there stays as it
    was. *)
Theorem no_embedding_no_store (error_codes : list error_code) (fs : vector_store) :
  (∀ i error, error_codes !! i = Some error →
     bedrock i (format_error_text error) = None) →
  (ingest_error_codes error_codes).2 = raised ValueError_no_embeddings ∧
  Forall (λ e, is_write e = false) (ingest_error_codes error_codes).1 ∧
  Forall (λ s, s = fs) (observable_states fs (ingest_error_codes error_codes).1) ∧
  ingest_on fs error_codes = fs.
Proof.
  intros Hdown. pose proof (embedded_nil_if_down _ Hdown) as Hnone.
  assert ((ingest_error_codes error_codes).1 = effects (loop bedrock error_codes)
          ∧ (ingest_error_codes error_codes).2 = raised ValueError_no_embeddings)
    as [Hfx Hout].
  { unfold ingest_error_codes.
    destruct (loop_spec bedrock error_codes) as (-> & _). cbn zeta.
    by rewrite Hnone. }
  pose proof (loop_effects_are_logs bedrock error_codes) as Hlogs.
  unfold ingest_on. rewrite Hfx. split; [done|]. split; [done|].
  split; [by apply observable_states_logs | by apply run_effects_logs].
Qed.

(** C8.  Every entry of the metadata a run writes has category ERROR_CODES
    and type "text", and the category index it writes has the keys
    SCHEMATICS and GENERAL, both with an empty list. *)
Theorem every_record_is_error_code_text (error_codes : list error_code)
    (fs : vector_store) :
  (ingest_error_codes error_codes).2 = returned →
  ∃ md ci,
    metadata_file (ingest_on fs error_codes) = Some md ∧
    category_index_file (ingest_on fs error_codes) = Some ci ∧
    Forall (λ m, md_category m = CATEGORY_ERROR_CODES ∧ md_type m = "text") md ∧
    ci !! CATEGORY_SCHEMATICS = Some [] ∧
    ci !! CATEGORY_GENERAL = Some [] ∧
    ci !! CATEGORY_ERROR_CODES = Some (md_id <$> md).
Proof.
  intros Hret. rewrite (ingest_returned_store bedrock _ fs Hret). cbn zeta.
  eexists _, _. split; [done|]. split; [done|]. split; [|split; [|split]].
  - by apply Forall_fmap, Forall_forall.
  - done.
  - done.
  - rewrite lookup_insert_eq, <- list_fmap_compose. done.
Qed.

End IngestionClaims.

(** ** Ids, rows and partitions *)

Section IdFacts.

Variable bedrock : nat → list N → option (list Q).

Local Abbreviation embedded := (embedded bedrock).
Local Abbreviation failed := (failed bedrock).
Local Abbreviation ingest_error_codes := (ingest_error_codes bedrock).
Local Abbreviation ingest_on := (ingest_on bedrock).

Lemma concat_Permutation {A} (l k : list (list A)) :
  l ≡ₚ k → concat l ≡ₚ concat k.
Proof.
  induction 1 as [|x l k _ IH|x y l|l k m _ IH1 _ IH2]; simpl.
  - done.
  - by rewrite IH.
  - rewrite !(assoc_L (++)). by rewrite (comm (++) y x).
  - by etrans.
Qed.

Lemma partition_ids_built (ids : list nat) :
  partition_ids
    (<[CATEGORY_ERROR_CODES := ids]>
       (<[CATEGORY_SCHEMATICS := []]> (<[CATEGORY_GENERAL := []]> ∅)))
  ≡ₚ ids.
Proof.
  unfold partition_ids.
  rewrite (concat_Permutation _ ([ids; []; []])); [simpl; by rewrite app_nil_r|].
  rewrite !map_to_list_insert by done. by rewrite map_to_list_empty.
Qed.

(** The id of an entry is the position of its row in the input. *)
Lemma ids_are_input_positions error_codes fs :
  (ingest_error_codes error_codes).2 = returned →
  ∃ index md ci,
    ingest_on fs error_codes =
      {| index_file := Some index;
         metadata_file := Some md;
         category_index_file := Some ci |} ∧
    md_id <$> md = (λ x, x.1.1) <$> embedded error_codes ∧
    partition_ids ci ≡ₚ md_id <$> md ∧
    ntotal index = length md.
Proof.
  intros Hret. eexists _, _, _.
  split; [by apply ingest_returned_store|]. cbn zeta.
  rewrite <- list_fmap_compose. split; [done|].
  split; [apply partition_ids_built|].
  unfold ntotal. simpl. by rewrite !length_fmap.
Qed.

Lemma positions_without_failure error_codes :
  failed error_codes = [] →
  (λ x, x.1.1) <$> embedded error_codes = seq 0 (length error_codes).
Proof.
  induction error_codes as [|error error_codes IH] using rev_ind; [done|].
  unfold failed in *. rewrite enumerate_snoc, filter_app.
  intros [Hnil Hlast]%app_eq_nil.
  rewrite embedded_snoc, fmap_app, IH, length_app, seq_app by done. f_equal.
  destruct (bedrock (length error_codes) (format_error_text error)) eqn:Hb;
    [done|].
  by rewrite filter_cons_True in Hlast.
Qed.

(** When no row is skipped the ids are dense and the partitions cover the
    rows of the index exactly once. *)
Lemma dense_without_failure error_codes fs :
  failed error_codes = [] →
  (ingest_error_codes error_codes).2 = returned →
  ∃ index md ci,
    ingest_on fs error_codes =
      {| index_file := Some index;
         metadata_file := Some md;
         category_index_file := Some ci |} ∧
    ids_dense md (ntotal index) ∧ partition_invariant ci (ntotal index).
Proof.
  intros Hnone Hret.
  destruct (ids_are_input_positions _ fs Hret)
    as (index & md & ci & Hst & Hids & Hpart & Hn).
  exists index, md, ci. split; [done|].
  pose proof (embedded_failed_length bedrock error_codes) as Hlen.
  rewrite Hnone in Hlen. simpl in Hlen.
  assert (ntotal index = length error_codes) as ->.
  { rewrite Hn, <- (length_fmap md_id), Hids, length_fmap. lia. }
  unfold ids_dense, partition_invariant.
  rewrite Hpart, Hids. by rewrite positions_without_failure.
Qed.

End IdFacts.

(** ** Sample runs *)

Lemma bedrock_failing_at_dimension k : fixed_dimension (bedrock_failing_at k) 2.
Proof.
  intros call text v. unfold bedrock_failing_at, bedrock_up.
  destruct (call =? k); [done|]. by intros [= <-].
Qed.

Lemma embedding_failure_skips_record_witness :
  fixed_dimension (bedrock_failing_at 2) 2 ∧
  (ingest_error_codes (bedrock_failing_at 2) lg_rows).2 = returned ∧
  ∃ index md,
    index_file (ingest_on (bedrock_failing_at 2) empty_store lg_rows) = Some index ∧
    metadata_file (ingest_on (bedrock_failing_at 2) empty_store lg_rows) = Some md ∧
    length md = 4 ∧ ntotal index = 4 ∧
    md_code <$> md = [str "IE"; str "UE"; str "dE"; str "FE"] ∧
    log_error (msg_record_failed (str "OE"))
      ∈ (ingest_error_codes (bedrock_failing_at 2) lg_rows).1.
Proof.
  split; [apply bedrock_failing_at_dimension|].
  destruct (embedding_failure_skips_record (bedrock_failing_at 2) 2 lg_rows
              empty_store (bedrock_failing_at_dimension 2))
    as (Hret & (index & md & ci & Hst & Hrows & Hxb & Hlen & Hn) & Hlog & _).
  { by vm_compute. }
  split; [done|]. exists index, md. rewrite Hst. simpl.
  split; [done|]. split; [done|].
  assert (length md = 4) as Hfour by (rewrite Hlen; by vm_compute).
  split; [done|]. split; [by rewrite Hn|]. split.
  - change (md_code <$> md) with ((code ∘ row_of) <$> md).
    rewrite list_fmap_compose, Hrows. by vm_compute.
  - apply (Hlog 2 (row "OE" "Drain Error" "Water is not draining")).
    vm_compute. apply list_elem_of_here.
Defined.

Lemma no_embedding_no_store_witness :
  let old := {| index_file := Some (IndexFlatL2 2);
                metadata_file := Some [];
                category_index_file := None |} in
  ((ingest_error_codes bedrock_up []).2 = raised ValueError_no_embeddings ∧
   ingest_on bedrock_up old [] = old) ∧
  ((ingest_error_codes bedrock_down lg_rows).2 = raised ValueError_no_embeddings ∧
   ingest_on bedrock_down old lg_rows = old).
Proof.
  intros old. split.
  - destruct (no_embedding_no_store bedrock_up [] old) as (Hout & _ & _ & Hfs);
      [|done].
    intros i error Hi. by rewrite lookup_nil in Hi.
  - destruct (no_embedding_no_store bedrock_down lg_rows old) as (Hout & _ & _ & Hfs);
      [|done].
    reflexivity.
Defined.

Lemma every_record_is_error_code_text_witness :
  (ingest_error_codes (bedrock_failing_at 2) lg_rows).2 = returned ∧
  ∃ md ci,
    metadata_file (ingest_on (bedrock_failing_at 2) empty_store lg_rows) = Some md ∧
    category_index_file (ingest_on (bedrock_failing_at 2) empty_store lg_rows) = Some ci ∧
    Forall (λ m, md_category m = "ERROR_CODES" ∧ md_type m = "text") md ∧
    ci !! "SCHEMATICS" = Some [] ∧ ci !! "GENERAL" = Some [].
Proof.
  assert ((ingest_error_codes (bedrock_failing_at 2) lg_rows).2 = returned) as Hret
    by (by vm_compute).
  split; [done|].
  destruct (every_record_is_error_code_text (bedrock_failing_at 2) lg_rows
              empty_store Hret) as (md & ci & Hmd & Hci & Hall & Hs & Hg & _).
  by exists md, ci.
Defined.

(** C1.  With a skipped row the ids are not dense: on two rows of which the
    first fails to embed, the run builds a store whose vector index has the
    single row 0 while the single metadata entry, made from the second row,
    has id 1.  Row 0 of the index is thus not the entry with id 0. *)
Theorem ids_not_dense_after_skip :
  let error_codes :=
    [row "IE" "Water Inlet Error" "Water is not filling";
     row "UE" "Unbalance Error" "Load is not balanced"] in
  let store := ingest_on (bedrock_failing_at 0) empty_store error_codes in
  (ingest_error_codes (bedrock_failing_at 0) error_codes).2 = returned ∧
  ∃ index md,
    index_file store = Some index ∧ metadata_file store = Some md ∧
    ntotal index = 1 ∧
    md_id <$> md = [1] ∧ md_code <$> md = [str "UE"] ∧
    ¬ ids_dense md (ntotal index).
Proof.
  cbn zeta. split; [by vm_compute|].
  eexists _, _. split; [by vm_compute|]. split; [by vm_compute|].
  split; [done|]. split; [done|]. split; [done|].
  unfold ids_dense. by vm_compute.
Qed.

(** C2.  With a skipped row the partitions do not cover the rows of the
    vector index: on five rows of which the third fails to embed, the index
    has the rows 0 to 3 while the ERROR_CODES partition is 0, 1, 3, 4 and the
    other partitions are empty.  No partition holds row 2, and id 4 is
    outside the rows of the index; no id is in two partitions. *)
Theorem partitions_miss_a_row_after_skip :
  let store := ingest_on (bedrock_failing_at 2) empty_store lg_rows in
  ∃ index ci,
    index_file store = Some index ∧ category_index_file store = Some ci ∧
    ntotal index = 4 ∧
    ci !! CATEGORY_ERROR_CODES = Some [0; 1; 3; 4] ∧
    partition_ids ci = [0; 1; 3; 4] ∧
    NoDup (partition_ids ci) ∧
    (2 ∉ partition_ids ci) ∧
    ¬ partition_invariant ci (ntotal index).
Proof.
  cbn zeta.
  assert ((ingest_error_codes (bedrock_failing_at 2) lg_rows).2 = returned)
    as Hret by (by vm_compute).
  rewrite (ingest_returned_store _ _ empty_store Hret). cbn zeta.
  replace ((λ x, x.1.1) <$> embedded (bedrock_failing_at 2) lg_rows)
    with [0; 1; 3; 4] by (by vm_compute).
  eexists _, _. split; [done|]. split; [done|].
  split; [by vm_compute|]. split; [done|].
  assert (partition_ids
            (<[CATEGORY_ERROR_CODES := [0; 1; 3; 4]]>
               (<[CATEGORY_SCHEMATICS := []]> (<[CATEGORY_GENERAL := []]> ∅)))
          = [0; 1; 3; 4]) as Hids by (by vm_compute).
  split; [exact Hids|]. unfold partition_invariant. rewrite Hids.
  replace (ntotal _) with 4 by (by vm_compute). clear Hret Hids.
  assert (2 ∉ [0; 1; 3; 4]) as Hgap.
  { apply (bool_decide_unpack _). by vm_compute. }
  split; [|split].
  - apply (bool_decide_unpack _). by vm_compute.
  - exact Hgap.
  - intros Hperm. apply Hgap. rewrite Hperm.
    apply (bool_decide_unpack _). by vm_compute.
Qed.

(** ** Persisting the three files *)

Lemma observable_states_head fs fx : fs ∈ observable_states fs fx.
Proof. destruct fx; apply list_elem_of_here. Qed.

Lemma observable_states_app fs fx fx' s :
  s ∈ observable_states fs (fx ++ fx') ↔
  s ∈ observable_states fs fx ∨ s ∈ observable_states (run_effects fs fx) fx'.
Proof.
  revert fs. induction fx as [|e fx IH]; intros fs.
  - simpl. rewrite list_elem_of_singleton. split; [by right|].
    intros [-> | H]; [apply observable_states_head | done].
  - cbn [observable_states app]. rewrite !elem_of_cons, IH.
    unfold run_effects. simpl. tauto.
Qed.

Lemma filter_writes_logs fx :
  Forall (λ e, is_write e = false) fx →
  filter (λ e, is_write e = true) fx = [].
Proof.
  induction 1 as [|e fx He _ IH]; [done|].
  rewrite filter_cons_False; [done | congruence].
Qed.

(** C3 (as stated, refuted).  The three files are not persisted as one
    atomic unit: during the run on the five sample rows, started on an empty
    directory, a reader can find the vector index written while the metadata
    and the category index are still missing. *)
Lemma persist_not_atomic :
  ¬ atomic_persist empty_store (ingest_error_codes bedrock_up lg_rows).1.
Proof.
  intros Hatomic.
  assert ((ingest_error_codes bedrock_up lg_rows).2 = returned) as Hret
    by (by vm_compute).
  destruct (ingest_returned bedrock_up _ Hret) as (_ & _ & Hfx).
  pose proof (loop_effects_are_logs bedrock_up lg_rows) as Hlogs.
  set (index := {| d := 2; xb := (λ x, x.2) <$> embedded bedrock_up lg_rows |}).
  destruct (Hatomic {| index_file := Some index;
                       metadata_file := None;
                       category_index_file := None |}) as [Hold | Hnew].
  - rewrite Hfx. apply observable_states_app. right.
    rewrite run_effects_logs by done.
    cbn [observable_states apply_effect]. apply list_elem_of_further.
    apply list_elem_of_further. apply list_elem_of_here.
  - discriminate Hold.
  - apply (f_equal metadata_file) in Hnew.
    fold (ingest_on bedrock_up empty_store lg_rows) in Hnew.
    rewrite (ingest_returned_store bedrock_up _ empty_store Hret) in Hnew.
    discriminate Hnew.
Qed.

(** C3 (amended).  A run that returns writes the three files one after the
    other, each directly under its final name and in the order vector index,
    metadata, category index.  After the last write the store holds the
    three files of this build; before it, a reader finds the store as it was
    or with the first one or two files already replaced. *)
Theorem persist_is_three_writes_in_order
    (bedrock : nat → list N → option (list Q))
    (error_codes : list error_code) (fs : vector_store) :
  (ingest_error_codes bedrock error_codes).2 = returned →
  ∃ index md ci,
    filter (λ e, is_write e = true) (ingest_error_codes bedrock error_codes).1
      = [write_index index; write_metadata md; write_category_index ci] ∧
    (∀ s, s ∈ observable_states fs (ingest_error_codes bedrock error_codes).1 ↔
          s = fs ∨
          s = apply_effect fs (write_index index) ∨
          s = apply_effect (apply_effect fs (write_index index))
                (write_metadata md) ∨
          s = {| index_file := Some index;
                 metadata_file := Some md;
                 category_index_file := Some ci |}) ∧
    ingest_on bedrock fs error_codes =
      {| index_file := Some index;
         metadata_file := Some md;
         category_index_file := Some ci |}.
Proof.
  intros Hret. destruct (ingest_returned bedrock _ Hret) as (_ & _ & Hfx).
  pose proof (loop_effects_are_logs bedrock error_codes) as Hlogs.
  eexists _, _, _. split; [|split].
  - rewrite Hfx, filter_app, filter_writes_logs by done. reflexivity.
  - intros s. rewrite Hfx, observable_states_app, run_effects_logs by done.
    pose proof (observable_states_logs fs _ Hlogs) as Hsame.
    rewrite Forall_forall in Hsame.
    cbn [observable_states apply_effect index_file metadata_file
           category_index_file].
    rewrite !elem_of_cons, elem_of_nil. split.
    + intros [H | H]; [left; by apply Hsame | tauto].
    + intros H. right. tauto.
  - by apply ingest_returned_store.
Qed.

Lemma persist_is_three_writes_in_order_witness :
  (ingest_error_codes bedrock_up lg_rows).2 = returned ∧
  ∃ index md ci,
    ingest_on bedrock_up empty_store lg_rows =
      {| index_file := Some index;
         metadata_file := Some md;
         category_index_file := Some ci |} ∧
    {| index_file := Some index;
       metadata_file := None;
       category_index_file := None |}
      ∈ observable_states empty_store (ingest_error_codes bedrock_up lg_rows).1.
Proof.
  assert ((ingest_error_codes bedrock_up lg_rows).2 = returned) as Hret
    by (by vm_compute).
  split; [done|].
  destruct (persist_is_three_writes_in_order bedrock_up lg_rows empty_store Hret)
    as (index & md & ci & _ & Hobs & Hfinal).
  exists index, md, ci. split; [done|]. apply Hobs. right. by left.
Defined.

(** ** Scoped search *)

Lemma elem_of_insert_ranked x m l : x ∈ insert_ranked m l ↔ x = m ∨ x ∈ l.
Proof.
  induction l as [|y l IH]; simpl.
  - rewrite list_elem_of_singleton, elem_of_nil. tauto.
  - destruct (ranks_before m y); rewrite !elem_of_cons; [tauto|].
    rewrite IH. tauto.
Qed.

Lemma elem_of_sort_ranked x l : x ∈ sort_ranked l ↔ x ∈ l.
Proof.
  unfold sort_ranked. induction l as [|y l IH]; simpl; [done|].
  by rewrite elem_of_insert_ranked, IH, elem_of_cons.
Qed.

Lemma score_Some store query i m :
  score store query i = Some m →
  m_id m = i ∧
  ∃ r, metadata_table store !! i = Some r ∧
       m_code m = md_code r ∧ m_name m = md_name r ∧
       m_description m = md_description r.
Proof.
  unfold score. intros H.
  destruct (vector_index store !! i) as [v|]; [|done].
  destruct (metadata_table store !! i) as [r|]; [|done].
  simpl in H. injection H as <-. simpl. split; [done|]. by exists r.
Qed.

Section Scoping.

Variable embed : list N → option (list Q).
Variable similarity_threshold : Q.

(** Whatever is returned was a candidate. *)
Lemma search_returns_candidates store query_text query_image_bytes
    category_hint top_k ms m :
  search embed similarity_threshold store query_text query_image_bytes
    category_hint top_k = inr ms →
  m ∈ ms →
  m_id m ∈ candidate_ids store category_hint ∧
  ∃ r, metadata_table store !! m_id m = Some r ∧
       m_code m = md_code r ∧ m_name m = md_name r ∧
       m_description m = md_description r.
Proof.
  unfold search. intros Hs Hm.
  destruct (top_k =? 0); [done|].
  destruct (length (vector_index store) =? 0); [done|].
  destruct (embed query_text) as [query|]; [|done].
  injection Hs as <-.
  apply subseteq_take, elem_of_sort_ranked, list_elem_of_filter in Hm as [_ Hm].
  apply list_elem_of_omap in Hm as (i & Hi & Hsc).
  apply score_Some in Hsc as [<- Hr]. done.
Qed.

(** C9.  With a hint that names a category, every match that the search
    returns has its id in the partition of that category and carries the
    fields of the record of that id; on a store whose partitions agree with
    its records, that record is of the named category, so a record of any
    other category is never returned. *)
Theorem search_is_scoped (store : category_index_store) (query_text : list N)
    (query_image_bytes : option (list N)) (c : string) (top_k : nat)
    (ms : list Match) :
  search embed similarity_threshold store query_text query_image_bytes
    (Some c) top_k = inr ms →
  ∀ m, m ∈ ms →
    m_id m ∈ default [] (category_partition_map store !! c) ∧
    (∃ r, metadata_table store !! m_id m = Some r ∧
          m_code m = md_code r ∧ m_name m = md_name r ∧
          m_description m = md_description r ∧
          (store_consistent store → md_category r = c)).
Proof.
  intros Hs m Hm.
  destruct (search_returns_candidates _ _ _ _ _ _ _ Hs Hm)
    as (Hcand & r & Hr & Hc & Hn & Hd).
  simpl in Hcand. split; [done|].
  exists r. repeat split; try done.
  intros Hcons.
  destruct (category_partition_map store !! c) as [ids|] eqn:Hp;
    [|by apply elem_of_nil in Hcand].
  specialize (Hcons c ids (m_id m) Hp Hcand).
  rewrite Hr in Hcons. by injection Hcons.
Qed.

End Scoping.

Lemma scenario_store_consistent : store_consistent scenario_store.
Proof.
  intros c ids i Hp Hi. unfold scenario_store in *. simpl in *.
  destruct (decide (c = CATEGORY_ERROR_CODES)) as [->|Hec].
  { rewrite lookup_insert_eq in Hp. injection Hp as <-.
    apply elem_of_cons in Hi as [->|Hi]; [done|].
    apply list_elem_of_singleton in Hi as ->. done. }
  rewrite lookup_insert_ne in Hp by done.
  destruct (decide (c = CATEGORY_SCHEMATICS)) as [->|Hsc].
  { rewrite lookup_insert_eq in Hp. injection Hp as <-.
    apply list_elem_of_singleton in Hi as ->. done. }
  rewrite lookup_insert_ne in Hp by done.
  destruct (decide (c = CATEGORY_GENERAL)) as [->|Hg].
  { rewrite lookup_insert_eq in Hp. injection Hp as <-.
    by apply elem_of_nil in Hi. }
  rewrite lookup_insert_ne in Hp by done. by rewrite lookup_empty in Hp.
Qed.

Lemma search_is_scoped_witness :
  Ascii.detect_intent (str "IE error showing") false = Some "ERROR_CODES" ∧
  ∃ ms,
    search scenario_embed (1 # 10)%Q scenario_store (str "IE error showing") None
      (Ascii.detect_intent (str "IE error showing") false) 3 = inr ms ∧
    m_id <$> ms = [0; 1] ∧
    ∀ m, m ∈ ms → m_id m ∈ [0; 1] ∧ m_id m ≠ 2.
Proof.
  split; [by vm_compute|].
  destruct (search scenario_embed (1 # 10)%Q scenario_store
              (str "IE error showing") None
              (Ascii.detect_intent (str "IE error showing") false) 3)
    as [e|ms] eqn:Hs; [by vm_compute in Hs|].
  exists ms. split; [done|]. split.
  - vm_compute in Hs. by injection Hs as <-.
  - intros m Hm.
    assert (m_id m ∈ [0; 1]) as Hin.
    { apply (search_is_scoped scenario_embed (1 # 10)%Q scenario_store
               (str "IE error showing") None "ERROR_CODES" 3 ms Hs m Hm). }
    split; [done|]. intros Heq. rewrite Heq in Hin.
    apply elem_of_cons in Hin as [?|Hin]; [done|].
    by apply list_elem_of_singleton in Hin.
Defined.

(** * Further properties of the code *)

(** ** The router *)

(** X1.  The router answers None, ERROR_CODES or SCHEMATICS and never
    GENERAL, and it answers SCHEMATICS exactly when an image is attached. *)
Theorem detect_intent_range
    (str_upper str_lower : list N → list N) (unicode_word unicode_digit : N → bool)
    (text : list N) (has_image : bool) :
  let intent :=
    detect_intent str_upper str_lower unicode_word unicode_digit text has_image in
  (intent = None ∨ intent = Some CATEGORY_ERROR_CODES
   ∨ intent = Some CATEGORY_SCHEMATICS) ∧
  intent ≠ Some CATEGORY_GENERAL ∧
  (intent = Some CATEGORY_SCHEMATICS ↔ has_image = true).
Proof.
  cbn zeta. unfold detect_intent.
  destruct has_image; [|destruct (re_search_error_code_pattern _ _ _);
                         [|destruct (existsb _ _)]];
    (split; [auto|]); (split; [done|]); split; done.
Qed.

Lemma ascii_lower_upper s : Ascii.lower (Ascii.upper s) = Ascii.lower s.
Proof.
  unfold Ascii.lower, Ascii.upper. rewrite <- list_fmap_compose.
  apply list_fmap_ext. intros _ c _. simpl. unfold Ascii.is_az, is_AZ.
  repeat match goal with
         | |- context [(?a <=? ?b)%N] =>
             destruct (N.leb_spec a b); cbn [andb orb negb] in *
         end; lia.
Qed.

Lemma ascii_upper_lower s : Ascii.upper (Ascii.lower s) = Ascii.upper s.
Proof.
  unfold Ascii.lower, Ascii.upper. rewrite <- list_fmap_compose.
  apply list_fmap_ext. intros _ c _. simpl. unfold Ascii.is_az, is_AZ.
  repeat match goal with
         | |- context [(?a <=? ?b)%N] =>
             destruct (N.leb_spec a b); cbn [andb orb negb] in *
         end; lia.
Qed.

Lemma ascii_lower_is_ascii s : is_ascii s → is_ascii (Ascii.lower s).
Proof.
  intros H. apply Forall_fmap. eapply Forall_impl; [exact H|].
  intros c Hc. simpl. unfold is_AZ.
  repeat match goal with
         | |- context [(?a <=? ?b)%N] =>
             destruct (N.leb_spec a b); cbn [andb orb negb] in *
         end; lia.
Qed.

Section RouterOnAscii.

Variable str_upper : list N → list N.
Variable str_lower : list N → list N.
Variable unicode_word : N → bool.
Variable unicode_digit : N → bool.

Hypothesis tables : agrees_with_ascii str_upper str_lower unicode_word unicode_digit.

Lemma str_upper_of_lower text :
  is_ascii text → str_upper text = Ascii.upper (Ascii.lower text).
Proof.
  intros H. by rewrite ascii_upper_lower, (upper_ascii _ _ _ _ tables).
Qed.

Lemma str_lower_of_lower text :
  is_ascii text → str_lower text = Ascii.lower text.
Proof. apply (lower_ascii _ _ _ _ tables). Qed.

(** X2.  Letter case does not matter to the router: two ASCII texts that
    are equal once lowercased are routed alike. *)
Theorem detect_intent_ignores_case (text text' : list N) (has_image : bool) :
  is_ascii text → is_ascii text' →
  Ascii.lower text = Ascii.lower text' →
  detect_intent str_upper str_lower unicode_word unicode_digit text has_image
  = detect_intent str_upper str_lower unicode_word unicode_digit text' has_image.
Proof.
  intros H H' Hsame. unfold detect_intent.
  by rewrite !str_upper_of_lower, !str_lower_of_lower, Hsame.
Qed.

Lemma str_literal_is_ascii (s : string) (rest : list N) :
  forallb (λ c, c <? 128)%N (str s) = true → is_ascii rest →
  is_ascii (str s ++ rest).
Proof.
  intros Hs Hrest. apply Forall_app. split; [|done].
  by apply str_is_ascii_by_compute.
Qed.

(** X3.  The text that ingestion embeds for a row of ASCII fields, "Error
    code: name - description", is itself routed to ERROR_CODES when it comes
    back as a query without image. *)
Theorem formatted_text_routes_to_error_codes (error : error_code) :
  is_ascii (code error) → is_ascii (name error) → is_ascii (description error) →
  detect_intent str_upper str_lower unicode_word unicode_digit
    (format_error_text error) false = Some CATEGORY_ERROR_CODES.
Proof.
  intros Hc Hn Hd. unfold detect_intent.
  destruct (re_search_error_code_pattern _ _ _); [done|].
  assert (is_ascii (format_error_text error)) as Hascii.
  { unfold format_error_text.
    apply str_literal_is_ascii; [done|]. apply Forall_app. split; [done|].
    apply str_literal_is_ascii; [done|]. apply Forall_app. split; [done|].
    by apply str_literal_is_ascii. }
  rewrite str_lower_of_lower by done.
  rewrite (proj2 (any_keyword_spec _)); [done|].
  exists (str "error"). split; [apply list_elem_of_here|].
  exists [], (Ascii.lower (str " " ++ code error ++ str ": " ++ name error
                          ++ str " - " ++ description error)).
  unfold format_error_text, Ascii.lower. by rewrite !fmap_app.
Qed.

End RouterOnAscii.

Lemma detect_intent_ignores_case_witness :
  is_ascii (str "my washer shows De1") ∧ is_ascii (str "MY WASHER SHOWS dE1") ∧
  Ascii.detect_intent (str "my washer shows De1") false
  = Ascii.detect_intent (str "MY WASHER SHOWS dE1") false.
Proof.
  assert (is_ascii (str "my washer shows De1")) as H1
    by (by apply str_is_ascii_by_compute).
  assert (is_ascii (str "MY WASHER SHOWS dE1")) as H2
    by (by apply str_is_ascii_by_compute).
  split; [done|]. split; [done|].
  apply (detect_intent_ignores_case Ascii.upper Ascii.lower Ascii.word Ascii.digit
           ascii_agrees _ _ false H1 H2).
  reflexivity.
Defined.

Lemma formatted_text_routes_to_error_codes_witness :
  Ascii.detect_intent
    (format_error_text (row "OE" "Drain Error" "Water is not draining")) false
  = Some "ERROR_CODES".
Proof.
  apply (formatted_text_routes_to_error_codes Ascii.upper Ascii.lower Ascii.word
           Ascii.digit ascii_agrees
           (row "OE" "Drain Error" "Water is not draining"));
    by apply str_is_ascii_by_compute.
Defined.

(** ** Runs of the ingestion *)

Lemma vstack_Some_uniform arrays a :
  vstack arrays = Some a → ∃ L, Forall (λ v, length v = L) arrays.
Proof.
  unfold vstack. destruct arrays as [|v arrays]; [done|].
  destruct (forallb _ _) eqn:Hall; [|done]. intros _.
  exists (length v). apply Forall_forall. intros w Hw.
  rewrite forallb_forall in Hall. apply Nat.eqb_eq, Hall.
  by apply list_elem_of_In.
Qed.

Section RunFacts.

Variable bedrock : nat → list N → option (list Q).

Local Abbreviation embedded := (embedded bedrock).
Local Abbreviation failed := (failed bedrock).
Local Abbreviation ingest_error_codes := (ingest_error_codes bedrock).
Local Abbreviation ingest_on := (ingest_on bedrock).
Local Abbreviation uniform := (uniform bedrock).

(** How a run ends, and what it does, by the embeddings it collected. *)
Lemma ingest_outcome error_codes :
  let E := (λ x, x.2) <$> embedded error_codes in
  (ingest_error_codes error_codes).2 =
    match E with
    | [] => raised ValueError_no_embeddings
    | _ :: _ =>
        match vstack E with
        | None => raised ValueError_vstack
        | Some _ => returned
        end
    end ∧
  ((ingest_error_codes error_codes).2 ≠ returned →
   (ingest_error_codes error_codes).1 = effects (loop bedrock error_codes)).
Proof.
  unfold ingest_error_codes.
  destruct (loop_spec bedrock error_codes) as (-> & _). cbn zeta.
  destruct (_ <$> embedded error_codes) as [|v E]; [done|].
  by destruct (vstack (v :: E)).
Qed.

(** X4.  A run returns exactly when at least one row was embedded and all
    embeddings have one length; it raises the ValueError of [if not
    embeddings] exactly when no row was embedded, and the ValueError of
    [np.vstack] exactly when rows were embedded with different lengths. *)
Theorem ingest_outcome_cases (error_codes : list error_code) :
  ((ingest_error_codes error_codes).2 = returned ↔
   embedded error_codes ≠ [] ∧ uniform error_codes) ∧
  ((ingest_error_codes error_codes).2 = raised ValueError_no_embeddings ↔
   embedded error_codes = []) ∧
  ((ingest_error_codes error_codes).2 = raised ValueError_vstack ↔
   embedded error_codes ≠ [] ∧ ¬ uniform error_codes).
Proof.
  destruct (ingest_outcome error_codes) as [-> _]. cbn zeta. unfold uniform.
  destruct (embedded error_codes) as [|x E].
  { simpl. repeat split; try done; by intros []. }
  change ((λ x, x.2) <$> x :: E) with (x.2 :: ((λ x, x.2) <$> E)).
  destruct (vstack (x.2 :: _)) as [a|] eqn:Hv.
  - apply vstack_Some_uniform in Hv as [L HL].
    change (x.2 :: ((λ x, x.2) <$> E)) with ((λ x, x.2) <$> x :: E) in HL.
    rewrite Forall_fmap in HL.
    assert (∃ L, Forall (λ y : nat * error_code * list Q, length y.2 = L)
                   (x :: E)) as Hu by (by exists L).
    repeat split; try done. by intros [_ Hnu].
  - assert (¬ ∃ L, Forall (λ y : nat * error_code * list Q, length y.2 = L)
                     (x :: E)) as Hnu.
    { intros [L HL]. rewrite (vstack_uniform L) in Hv; [done|done|].
      change (x.2 :: ((λ x, x.2) <$> E)) with ((λ x, x.2) <$> x :: E).
      by apply Forall_fmap. }
    repeat split; try done. by intros [_ Hu].
Qed.

(** X5.  A run that raises, for either reason, has written nothing: its
    effects are log lines, every state a reader can find is the store as it
    was, and the store after the run is the store before it. *)
Theorem failed_run_writes_nothing (error_codes : list error_code)
    (fs : vector_store) :
  (ingest_error_codes error_codes).2 ≠ returned →
  Forall (λ e, is_write e = false) (ingest_error_codes error_codes).1 ∧
  Forall (λ s, s = fs) (observable_states fs (ingest_error_codes error_codes).1) ∧
  ingest_on fs error_codes = fs.
Proof.
  intros Hraise. destruct (ingest_outcome error_codes) as [_ Hfx].
  unfold ingest_on. rewrite (Hfx Hraise).
  pose proof (loop_effects_are_logs bedrock error_codes) as Hlogs.
  split; [done|].
  split; [by apply observable_states_logs | by apply run_effects_logs].
Qed.

(** X6.  A run that returns rebuilds the store from its input alone: the
    three files it leaves do not depend on the store it started on. *)
Theorem rebuild_forgets_previous_store (error_codes : list error_code)
    (fs fs' : vector_store) :
  (ingest_error_codes error_codes).2 = returned →
  ingest_on fs error_codes = ingest_on fs' error_codes ∧
  is_Some (index_file (ingest_on fs error_codes)) ∧
  is_Some (metadata_file (ingest_on fs error_codes)) ∧
  is_Some (category_index_file (ingest_on fs error_codes)).
Proof.
  intros Hret.
  rewrite !(ingest_returned_store bedrock _ _ Hret). cbn zeta. simpl. eauto.
Qed.

Lemma embedded_elem i error v error_codes :
  (i, error, v) ∈ embedded error_codes →
  error_codes !! i = Some error ∧ bedrock i (format_error_text error) = Some v.
Proof.
  intros ([j e] & Hin & Hb)%list_elem_of_omap.
  destruct (bedrock j (format_error_text e)) as [w|] eqn:Hw; simplify_eq/=.
  split; [|done].
  apply elem_of_lookup_imap in Hin as (k & x & Heq & Hk). by simplify_eq.
Qed.


(** X8.  The id of a metadata entry is the position of its row in the
    input: the row at that position has the code, name and description of
    the entry, the text of the entry is the formatted row, and the embedding
    call of that position succeeded. *)
Theorem id_is_input_position (error_codes : list error_code)
    (fs : vector_store) :
  (ingest_error_codes error_codes).2 = returned →
  ∃ md,
    metadata_file (ingest_on fs error_codes) = Some md ∧
    ∀ m, m ∈ md →
      error_codes !! md_id m = Some (row_of m) ∧
      md_text m = format_error_text (row_of m) ∧
      is_Some (bedrock (md_id m) (md_text m)).
Proof.
  intros Hret. rewrite (ingest_returned_store bedrock _ fs Hret). cbn zeta.
  eexists. split; [done|].
  intros m ([[i error] v] & -> & Hin)%list_elem_of_fmap.
  apply embedded_elem in Hin as [Hi Hb]. simpl.
  by destruct error.
Qed.

Lemma embedded_ids_sorted error_codes :
  StronglySorted lt ((λ x, x.1.1) <$> embedded error_codes) ∧
  Forall (λ i, i < length error_codes) ((λ x, x.1.1) <$> embedded error_codes).
Proof.
  induction error_codes as [|error error_codes [IHs IHb]] using rev_ind.
  { split; constructor. }
  rewrite embedded_snoc, fmap_app, length_app. simpl.
  assert (Forall (λ i, i < length error_codes + 1)
            ((λ x, x.1.1) <$> embedded error_codes)) as Hb.
  { eapply Forall_impl; [exact IHb|]. simpl. lia. }
  destruct (bedrock _ _); simpl.
  - split.
    + apply StronglySorted_app. split; [|split; [done|repeat constructor]].
      intros a b Ha Hb'. apply list_elem_of_singleton in Hb' as ->.
      rewrite Forall_forall in IHb. by apply IHb.
    + apply Forall_app. split; [done|]. constructor; [lia|constructor].
  - by rewrite app_nil_r.
Qed.

(** X9.  The ids of the metadata a run writes are strictly increasing, so
    no two entries share an id, and each id is below the number of input
    rows; this holds with skipped rows too. *)
Theorem ids_strictly_increasing (error_codes : list error_code)
    (fs : vector_store) :
  (ingest_error_codes error_codes).2 = returned →
  ∃ md,
    metadata_file (ingest_on fs error_codes) = Some md ∧
    StronglySorted lt (md_id <$> md) ∧
    NoDup (md_id <$> md) ∧
    Forall (λ i, i < length error_codes) (md_id <$> md).
Proof.
  intros Hret. rewrite (ingest_returned_store bedrock _ fs Hret). cbn zeta.
  eexists. split; [done|]. simpl. rewrite <- list_fmap_compose.
  destruct (embedded_ids_sorted error_codes) as [Hs Hb].
  change (md_id ∘ _) with (λ x : nat * error_code * list Q, x.1.1).
  split; [done|]. split; [|done].
  clear Hb. induction Hs as [|a l _ IH Hall]; constructor; [|done].
  intros Hin. rewrite Forall_forall in Hall. specialize (Hall a Hin). lia.
Qed.

End RunFacts.

Lemma processing_lines_app fx fx' :
  processing_lines (fx ++ fx') = processing_lines fx ++ processing_lines fx'.
Proof. apply omap_app. Qed.

Lemma failure_lines_app fx fx' :
  failure_lines (fx ++ fx') = failure_lines fx ++ failure_lines fx'.
Proof. apply omap_app. Qed.

Section LogFacts.

Variable bedrock : nat → list N → option (list Q).

Lemma iteration_lines total error_codes :
  processing_lines (enumerate error_codes ≫= iteration_log bedrock total)
  = imap (λ i error, (S i, total, code error)) error_codes ∧
  failure_lines (enumerate error_codes ≫= iteration_log bedrock total)
  = (λ x, code x.2) <$> failed bedrock error_codes.
Proof.
  unfold processing_lines, failure_lines, failed.
  induction error_codes as [|error error_codes [IHp IHf]] using rev_ind; [done|].
  rewrite enumerate_snoc, bind_app, !omap_app, IHp, IHf, imap_app, filter_app,
    fmap_app.
  simpl. rewrite Nat.add_0_r, app_nil_r.
  destruct (bedrock (length error_codes) (format_error_text error)) eqn:Hb.
  - rewrite filter_cons_False by (simpl; congruence). done.
  - rewrite filter_cons_True by done. done.
Qed.

(** X10.  Whatever the outcome, the log of a run has one line "Processing
    i/n" for every input row, in input order, with i counting from 1 and n
    the number of rows, and one line "Failed to process error code" for
    every row whose embedding call raised, in input order, with its code. *)
Theorem log_accounts_for_every_row (error_codes : list error_code) :
  processing_lines (ingest_error_codes bedrock error_codes).1
  = imap (λ i error, (S i, length error_codes, code error)) error_codes ∧
  failure_lines (ingest_error_codes bedrock error_codes).1
  = (λ x, code x.2) <$> failed bedrock error_codes.
Proof.
  destruct (iteration_lines (length error_codes) error_codes) as [Hp Hf].
  destruct (loop_spec bedrock error_codes) as (_ & _ & _ & Hfx).
  assert (∃ tail,
            (ingest_error_codes bedrock error_codes).1
            = effects (loop bedrock error_codes) ++ tail ∧
            processing_lines tail = [] ∧ failure_lines tail = [])
    as (tail & -> & Htp & Htf).
  { destruct ((ingest_error_codes bedrock error_codes).2) eqn:Hout.
    - destruct (ingest_returned bedrock _ Hout) as (_ & _ & ->). by eexists.
    - destruct (ingest_outcome bedrock error_codes) as [_ Hraised].
      rewrite Hraised by congruence. exists []. by rewrite app_nil_r. }
  rewrite processing_lines_app, failure_lines_app, Htp, Htf, !app_nil_r, Hfx.
  change (processing_lines (log_info msg_starting :: ?l))
    with (processing_lines l).
  change (failure_lines (log_info msg_starting :: ?l)) with (failure_lines l).
  by rewrite Hp, Hf.
Qed.

End LogFacts.

(** ** Sample runs, continued *)

Lemma failed_run_writes_nothing_witness :
  let old := {| index_file := Some (IndexFlatL2 2);
                metadata_file := Some [];
                category_index_file := None |} in
  (ingest_error_codes (λ call _, Some (replicate call 1%Q)) lg_rows).2
    = raised ValueError_vstack ∧
  ingest_on (λ call _, Some (replicate call 1%Q)) old lg_rows = old.
Proof.
  intros old. split; [by vm_compute|].
  apply (failed_run_writes_nothing (λ call _, Some (replicate call 1%Q))
           lg_rows old).
  by vm_compute.
Defined.

Lemma rebuild_forgets_previous_store_witness :
  let old := {| index_file := Some (IndexFlatL2 7);
                metadata_file := Some [];
                category_index_file := None |} in
  ingest_on bedrock_up old lg_rows = ingest_on bedrock_up empty_store lg_rows.
Proof.
  intros old.
  apply (rebuild_forgets_previous_store bedrock_up lg_rows old empty_store).
  by vm_compute.
Defined.


Lemma id_is_input_position_witness :
  ∃ md,
    metadata_file (ingest_on (bedrock_failing_at 2) empty_store lg_rows) = Some md ∧
    ∀ m, m ∈ md →
      lg_rows !! md_id m = Some (row_of m) ∧
      md_text m = format_error_text (row_of m) ∧
      is_Some (bedrock_failing_at 2 (md_id m) (md_text m)).
Proof.
  apply (id_is_input_position (bedrock_failing_at 2) lg_rows empty_store).
  by vm_compute.
Defined.

Lemma ids_strictly_increasing_witness :
  ∃ md,
    metadata_file (ingest_on (bedrock_failing_at 2) empty_store lg_rows) = Some md ∧
    StronglySorted lt (md_id <$> md) ∧
    NoDup (md_id <$> md) ∧
    Forall (λ i, i < length lg_rows) (md_id <$> md).
Proof.
  apply (ids_strictly_increasing (bedrock_failing_at 2) lg_rows empty_store).
  by vm_compute.
Defined.

(** ** Repair steps and the endpoint *)

Lemma step_templates_keys c l :
  step_templates !! c = Some l →
  c ∈ [str "IE"; str "UE"; str "DE"; str "FE"; str "dE"] ∧ length l = 4.
Proof.
  intros H. apply elem_of_list_to_map_2 in H.
  repeat (apply elem_of_cons in H as [H|H];
          [injection H as -> ->; split; [by vm_compute; set_solver | done]|]).
  by apply elem_of_nil in H.
Qed.

(** X11.  [generate_repair_steps] gives four steps for every match, whether
    its code is known or not. *)
Theorem generate_repair_steps_four (error_match : match_dict) :
  length (generate_repair_steps error_match) = 4.
Proof.
  unfold generate_repair_steps.
  destruct (step_templates !! mt_code error_match) as [l|] eqn:Hl; [|done].
  by apply step_templates_keys in Hl as [_ Hl].
Qed.

(** X12.  The steps are specific to the code exactly when the code is one of
    IE, UE, DE, FE, dE, letter for letter; any other code, a known one in
    another case included, gets the generic steps. *)
Theorem repair_steps_specific_iff (error_match : match_dict) :
  generate_repair_steps error_match ≠ generic_steps ↔
  mt_code error_match ∈ [str "IE"; str "UE"; str "DE"; str "FE"; str "dE"].
Proof.
  unfold generate_repair_steps. split.
  - destruct (step_templates !! mt_code error_match) as [l|] eqn:Hl; [|done].
    intros _. by apply step_templates_keys in Hl as [Hl _].
  - intros H.
    repeat (apply elem_of_cons in H as [->|H]; [by vm_compute|]).
    by apply elem_of_nil in H.
Qed.

Section DiagnoseFacts.

Variable str_upper : list N → list N.
Variable str_lower : list N → list N.
Variable unicode_word : N → bool.
Variable unicode_digit : N → bool.

Local Abbreviation detect_intent :=
  (detect_intent str_upper str_lower unicode_word unicode_digit).
Local Abbreviation diagnose :=
  (diagnose str_upper str_lower unicode_word unicode_digit).

(** X13.  The status of the endpoint follows the search: 200 exactly when
    the search, called with the text, the bytes of the image if it opens,
    the routed category and top_k = 3, returns at least one match; 404
    exactly when it returns no match; 500 exactly when it raises, the detail
    then being "Search failed: " and the text of the exception. *)
Theorem diagnose_status
    (search_manual :
       list N → option (list N) → option string → nat → list N + list match_dict)
    (text : list N) (image : option upload_file) :
  let found :=
    search_manual text (image_bytes_of image)
      (detect_intent text (has_image_of image)) 3 in
  ((∃ r, diagnose search_manual text image = response_200 r) ↔
   ∃ top rest, found = inr (top :: rest)) ∧
  ((∃ detail, diagnose search_manual text image = HTTPException 404 detail) ↔
   found = inr []) ∧
  (∀ detail, diagnose search_manual text image = HTTPException 500 detail ↔
   ∃ e, found = inl e ∧ detail = str "Search failed: " ++ e).
Proof.
  cbn zeta. unfold diagnose.
  destruct (search_manual _ _ _ _) as [e | [|top rest]].
  - split; [|split]; [split; [by intros [r Hr] | by intros (t & r & Hr)] |
                      split; [by intros [dt Hdt] | done] |].
    intros detail. split.
    + intros [= <-]. by exists e.
    + intros (e' & [= <-] & ->). done.
  - split; [|split]; [split; [by intros [r Hr] | by intros (t & r & Hr)] |
                      split; [done | by eexists] |].
    intros detail. split; [done | by intros (e & He & _)].
  - split; [|split]; [split; [by eexists _, _ | by eexists] |
                      split; [by intros [dt Hdt] | done] |].
    intros detail. split; [done | by intros (e & He & _)].
Qed.

(** X14.  With an upload the endpoint searches SCHEMATICS only, whatever the
    text says and whether or not the image opens; without an upload it never
    searches SCHEMATICS and passes no image bytes.  In both cases top_k is 3.
    So two search functions that agree on those calls give the same
    answers. *)
Theorem diagnose_calls
    (search search' :
       list N → option (list N) → option string → nat → list N + list match_dict)
    (text : list N) :
  ((∀ q bytes, search q bytes (Some CATEGORY_SCHEMATICS) 3
               = search' q bytes (Some CATEGORY_SCHEMATICS) 3) →
   ∀ file, diagnose search text (Some file) = diagnose search' text (Some file)) ∧
  ((∀ q c, c ≠ Some CATEGORY_SCHEMATICS → search q None c 3 = search' q None c 3) →
   diagnose search text None = diagnose search' text None).
Proof.
  split.
  - intros Hsame file. unfold diagnose. simpl. by rewrite Hsame.
  - intros Hsame. unfold diagnose. simpl. rewrite Hsame; [done|].
    unfold detect_intent.
    by repeat case_match.
Qed.

(** X15.  A 200 response lists the matches of the search in their order, one
    element each with the code and name of the match; its confidence score
    is the similarity of the first of them (0 when the match has none); its
    steps are the repair steps of that first match and its safety warning is
    the fixed one. *)
Theorem diagnose_response_shape
    (search_manual :
       list N → option (list N) → option string → nat → list N + list match_dict)
    (text : list N) (image : option upload_file) (r : DiagnosisResponse) :
  diagnose search_manual text image = response_200 r →
  ∃ top rest,
    search_manual text (image_bytes_of image)
      (detect_intent text (has_image_of image)) 3 = inr (top :: rest) ∧
    me_code <$> matched_errors r = mt_code <$> top :: rest ∧
    me_name <$> matched_errors r = mt_name <$> top :: rest ∧
    me_similarity <$> head (matched_errors r) = Some (confidence_score r) ∧
    confidence_score r = default 0%Q (mt_similarity_score top) ∧
    steps r = generate_repair_steps top ∧
    safety_warning r = safety_warning_text.
Proof.
  unfold diagnose.
  destruct (search_manual _ _ _ _) as [e | [|top rest]]; [done|done|].
  intros [= <-]. exists top, rest. simpl.
  by rewrite <- !list_fmap_compose.
Qed.

End DiagnoseFacts.

Lemma diagnose_response_shape_witness :
  ∃ r,
    diagnose Ascii.upper Ascii.lower Ascii.word Ascii.digit sample_search_manual
      (str "IE error showing") None = response_200 r ∧
    me_code <$> matched_errors r = [str "IE"; str "UE"] ∧
    confidence_score r = (9 # 10)%Q ∧
    diagnose Ascii.upper Ascii.lower Ascii.word Ascii.digit sample_search_manual
      (str "IE error showing")
      (Some {| file_contents := []; image_opens := false |})
    = HTTPException 404
        (str "No matching error codes found. Please provide more details.").
Proof.
  destruct (diagnose Ascii.upper Ascii.lower Ascii.word Ascii.digit
              sample_search_manual (str "IE error showing") None)
    as [r|status detail] eqn:Hr; [|by vm_compute in Hr].
  exists r. split; [done|].
  destruct (diagnose_response_shape _ _ _ _ _ _ _ _ Hr)
    as (top & rest & Hfound & Hcodes & _ & _ & Hconf & _).
  vm_compute in Hfound. injection Hfound as <- <-.
  split; [by rewrite Hcodes|]. split; [by rewrite Hconf|]. by vm_compute.
Defined.

(** ** The configuration *)

Section ConfigFacts.

Import Config.

Variable int_of_str : string → option Z.
Variable float_of_str : string → option Q.

Local Abbreviation AWSConfig := (AWSConfig int_of_str float_of_str).
Local Abbreviation __init__ := (__init__ int_of_str float_of_str).

Lemma falsy_getenv env key :
  falsy (getenv env key) = false ↔ ∃ s, env !! key = Some s ∧ s ≠ "".
Proof.
  unfold getenv. destruct (env !! key) as [s|]; simpl.
  - split.
    + intros H%bool_decide_eq_false. by exists s.
    + intros (s' & [= <-] & H). by apply bool_decide_eq_false.
  - split; [done | by intros (s & H & _)].
Qed.

Lemma missing_names_nil env : missing_names env = [] ↔ has_credentials env.
Proof.
  unfold missing_names, has_credentials. rewrite <- !falsy_getenv.
  destruct (falsy (getenv env "AWS_ACCESS_KEY_ID")),
    (falsy (getenv env "AWS_SECRET_ACCESS_KEY"));
    simpl; split; try done; by intros [? ?].
Qed.

(** What [__init__] does on an instance that is not initialised yet. *)
Lemma init_uninitialised env self v :
  self !! "_initialized" = Some v → falsy v = true →
  (__init__ env self).2 = construction_error int_of_str float_of_str env ∧
  (__init__ env self).1 !! "_initialized"
  = Some (match construction_error int_of_str float_of_str env with
          | None => VBool true
          | Some _ => v
          end) ∧
  (construction_error int_of_str float_of_str env = None →
   (__init__ env self).1 !! "aws_access_key_id"
     = Some (getenv env "AWS_ACCESS_KEY_ID") ∧
   (__init__ env self).1 !! "aws_secret_access_key"
     = Some (getenv env "AWS_SECRET_ACCESS_KEY") ∧
   (__init__ env self).1 !! "aws_region"
     = Some (VStr (getenv_default env "AWS_REGION" "us-east-1"))).
Proof.
  intros Hinit Hfalsy.
  unfold Config.__init__, construction_error. rewrite Hinit, Hfalsy. simpl.
  destruct (int_of_str _); simpl.
  2: { split; [done|]. split; [|done]. by rewrite !lookup_insert_ne by done. }
  destruct (float_of_str _); simpl.
  2: { split; [done|]. split; [|done]. by rewrite !lookup_insert_ne by done. }
  match goal with |- context [_validate ?o] => set (obj := o) end.
  assert (obj !! "aws_access_key_id" = Some (getenv env "AWS_ACCESS_KEY_ID"))
    as Hkey.
  { subst obj. by rewrite !lookup_insert_ne, lookup_insert_eq by done. }
  assert (obj !! "aws_secret_access_key"
          = Some (getenv env "AWS_SECRET_ACCESS_KEY")) as Hsecret.
  { subst obj. by rewrite !lookup_insert_ne, lookup_insert_eq by done. }
  assert (obj !! "aws_region"
          = Some (VStr (getenv_default env "AWS_REGION" "us-east-1"))) as Hregion.
  { subst obj. by rewrite !lookup_insert_ne, lookup_insert_eq by done. }
  assert (obj !! "_initialized" = Some v) as Hobj.
  { subst obj. by rewrite !lookup_insert_ne by done. }
  clearbody obj.
  unfold _validate, missing_names. rewrite Hkey, Hsecret.
  destruct (falsy (getenv env "AWS_ACCESS_KEY_ID")),
    (falsy (getenv env "AWS_SECRET_ACCESS_KEY")); simpl;
    (split; [done|]); try (split; [done|done]).
  split; [by rewrite lookup_insert_eq|].
  intros _. by rewrite !lookup_insert_ne by done.
Qed.

Lemma first_construction env :
  (AWSConfig env None).2 = construction_error int_of_str float_of_str env.
Proof.
  unfold Config.AWSConfig, __new__.
  destruct (init_uninitialised env {[ "_initialized" := VBool false ]}
              (VBool false)) as (He & _); [by rewrite lookup_singleton_eq|done|].
  by destruct (__init__ env _).
Qed.

Lemma missing_names_elem env n :
  n ∈ missing_names env ↔
  (n = "AWS_ACCESS_KEY_ID" ∧ ¬ ∃ s, env !! "AWS_ACCESS_KEY_ID" = Some s ∧ s ≠ "")
  ∨ (n = "AWS_SECRET_ACCESS_KEY" ∧
     ¬ ∃ s, env !! "AWS_SECRET_ACCESS_KEY" = Some s ∧ s ≠ "").
Proof.
  unfold missing_names. rewrite <- !falsy_getenv.
  destruct (falsy (getenv env "AWS_ACCESS_KEY_ID")),
    (falsy (getenv env "AWS_SECRET_ACCESS_KEY")); simpl;
    rewrite ?elem_of_cons, ?elem_of_nil; intuition (auto; congruence).
Qed.

Lemma config_valid_aux env :
  (AWSConfig env None).2 = None → has_credentials env.
Proof.
  rewrite first_construction, <- missing_names_nil. unfold construction_error.
  destruct (int_of_str _); [|done]. destruct (float_of_str _); [|done].
  by destruct (missing_names env).
Qed.

(** X16.  The first [AWSConfig()] goes through exactly when TOP_K_RESULTS
    and SIMILARITY_THRESHOLD (or their defaults "3" and "0.6") parse and
    both credentials are set and not empty; the parsed numbers themselves
    are not checked. *)
Theorem config_valid_iff (env : gmap string string) :
  (AWSConfig env None).2 = None ↔
  is_Some (int_of_str (getenv_default env "TOP_K_RESULTS" "3")) ∧
  is_Some (float_of_str (getenv_default env "SIMILARITY_THRESHOLD" "0.6")) ∧
  has_credentials env.
Proof.
  rewrite first_construction, <- missing_names_nil. unfold construction_error.
  destruct (int_of_str _) as [n|]; [|split; [done | by intros [[? ?] _]]].
  destruct (float_of_str _) as [q|]; [|split; [done | by intros (_ & [? ?] & _)]].
  destruct (missing_names env); split; try done; by intros (_ & _ & ?).
Qed.

(** X17.  When the first [AWSConfig()] raises, it is with the ValueError of
    [int()] on the text of TOP_K_RESULTS, else with the ValueError of
    [float()] on the text of SIMILARITY_THRESHOLD, else with the ValueError
    of [_validate], whose list names exactly the credentials that are unset
    or empty; a bad number is reported before missing credentials. *)
Theorem config_error_cases (env : gmap string string) (e : config_error) :
  (AWSConfig env None).2 = Some e →
  match e with
  | ValueError_int s =>
      s = getenv_default env "TOP_K_RESULTS" "3" ∧ int_of_str s = None
  | ValueError_float s =>
      is_Some (int_of_str (getenv_default env "TOP_K_RESULTS" "3")) ∧
      s = getenv_default env "SIMILARITY_THRESHOLD" "0.6" ∧
      float_of_str s = None
  | ValueError_missing names =>
      is_Some (int_of_str (getenv_default env "TOP_K_RESULTS" "3")) ∧
      is_Some (float_of_str (getenv_default env "SIMILARITY_THRESHOLD" "0.6")) ∧
      names ≠ [] ∧
      ∀ n, n ∈ names ↔
        (n = "AWS_ACCESS_KEY_ID" ∧
         ¬ ∃ s, env !! "AWS_ACCESS_KEY_ID" = Some s ∧ s ≠ "")
        ∨ (n = "AWS_SECRET_ACCESS_KEY" ∧
           ¬ ∃ s, env !! "AWS_SECRET_ACCESS_KEY" = Some s ∧ s ≠ "")
  | AttributeError _ => False
  end.
Proof.
  rewrite first_construction. unfold construction_error.
  destruct (int_of_str _) as [n|] eqn:Hn; [|by intros [= <-]].
  destruct (float_of_str _) as [q|] eqn:Hq; [|by intros [= <-]].
  destruct (missing_names env) as [|x names] eqn:Hm; [done|].
  intros [= <-]. rewrite <- Hm. repeat split; try done.
  - by rewrite Hm.
  - apply missing_names_elem.
  - apply missing_names_elem.
Qed.

(** X18.  The configuration is a singleton that is read once: after an
    [AWSConfig()] that went through, every later [AWSConfig()] returns the
    same instance unchanged and raises nothing, whatever the environment
    has become. *)
Theorem config_singleton (env env' : gmap string string)
    (_instance : option (gmap string value)) (self : gmap string value) :
  AWSConfig env _instance = (Some self, None) →
  AWSConfig env' (Some self) = (Some self, None).
Proof.
  intros Hok.
  assert (∃ v, self !! "_initialized" = Some v ∧ falsy v = false)
    as (v & Hv & Htruthy).
  { unfold Config.AWSConfig in Hok.
    destruct (Config.__init__ _ _ env (__new__ _instance)) as [o e] eqn:Hinit.
    injection Hok as -> ->.
    unfold Config.__init__ in Hinit.
    destruct (__new__ _instance !! "_initialized") as [v|] eqn:Hv; [|done].
    destruct (falsy v) eqn:Hf; simpl in Hinit.
    - destruct (int_of_str _); [|done]. destruct (float_of_str _); [|done].
      destruct (_validate _); [done|]. injection Hinit as <-.
      exists (VBool true). by rewrite lookup_insert_eq.
    - injection Hinit as <-. by exists v. }
  unfold Config.AWSConfig, Config.__init__. simpl. by rewrite Hv, Htruthy.
Qed.

(** X19.  After a first [AWSConfig()] that went through,
    [get_boto3_session_kwargs] returns the access key id and the secret of
    the environment, both not empty, and as region the value of AWS_REGION,
    "us-east-1" when it is unset. *)
Theorem config_session_kwargs (env : gmap string string)
    (self : gmap string value) :
  AWSConfig env None = (Some self, None) →
  ∃ key_id secret,
    env !! "AWS_ACCESS_KEY_ID" = Some key_id ∧ key_id ≠ "" ∧
    env !! "AWS_SECRET_ACCESS_KEY" = Some secret ∧ secret ≠ "" ∧
    get_boto3_session_kwargs self =
      inr (<["aws_access_key_id" := VStr key_id]>
             (<["aws_secret_access_key" := VStr secret]>
                (<["region_name" :=
                     VStr (getenv_default env "AWS_REGION" "us-east-1")]> ∅))).
Proof.
  intros Hok.
  assert ((AWSConfig env None).2 = None) as Hnone by (by rewrite Hok).
  pose proof Hnone as Hvalid. apply config_valid_aux in Hvalid.
  destruct Hvalid as [(key_id & Hk & Hkne) (secret & Hs & Hsne)].
  rewrite first_construction in Hnone.
  destruct (init_uninitialised env {[ "_initialized" := VBool false ]}
              (VBool false)) as (_ & _ & Hattrs);
    [by rewrite lookup_singleton_eq|done|].
  destruct (Hattrs Hnone) as (Hkey & Hsecret & Hregion).
  unfold Config.AWSConfig, __new__ in Hok.
  destruct (Config.__init__ _ _ env _) as [o e]. injection Hok as -> ->.
  simpl in *. exists key_id, secret. repeat split; try done.
  unfold get_boto3_session_kwargs. rewrite Hkey, Hsecret, Hregion.
  unfold getenv. by rewrite Hk, Hs.
Qed.

(** X20.  An [AWSConfig()] that raises leaves the class uninitialised: the
    next [AWSConfig()] reads the environment again and ends as a first one
    would on that environment. *)
Theorem config_retry (env env' : gmap string string)
    (_instance : option (gmap string value)) (e : config_error) :
  AWSConfig env None = (_instance, Some e) →
  (AWSConfig env' _instance).2 = (AWSConfig env' None).2.
Proof.
  intros Hfail. rewrite (first_construction env').
  assert ((AWSConfig env None).2 = Some e) as He by (by rewrite Hfail).
  rewrite first_construction in He.
  destruct (init_uninitialised env {[ "_initialized" := VBool false ]}
              (VBool false)) as (_ & Hinit & _);
    [by rewrite lookup_singleton_eq|done|].
  rewrite He in Hinit.
  unfold Config.AWSConfig, __new__ in Hfail.
  destruct (Config.__init__ _ _ env _) as [o e'] eqn:Hrun.
  injection Hfail as <- ->. simpl in Hinit.
  unfold Config.AWSConfig, __new__.
  destruct (init_uninitialised env' o (VBool false) Hinit eq_refl) as (Herr & _).
  by destruct (Config.__init__ _ _ env' o).
Qed.

End ConfigFacts.

Lemma config_error_cases_witness :
  ∃ names,
    (Config.AWSConfig sample_int_of_str sample_float_of_str
       (<["AWS_ACCESS_KEY_ID" := "AKIAEXAMPLE"]> ∅) None).2
    = Some (Config.ValueError_missing names) ∧
    names ≠ [] ∧
    ("AWS_SECRET_ACCESS_KEY" ∈ names) ∧ ("AWS_ACCESS_KEY_ID" ∉ names).
Proof.
  exists ["AWS_SECRET_ACCESS_KEY"].
  assert ((Config.AWSConfig sample_int_of_str sample_float_of_str
             (<["AWS_ACCESS_KEY_ID" := "AKIAEXAMPLE"]> ∅) None).2
          = Some (Config.ValueError_missing ["AWS_SECRET_ACCESS_KEY"])) as Herr
    by (by vm_compute).
  split; [done|].
  destruct (config_error_cases _ _ _ _ Herr) as (_ & _ & Hne & Hnames).
  split; [done|]. split; [apply list_elem_of_here|].
  intros Hin. apply Hnames in Hin as [[_ Hno]|[Hneq _]]; [|done].
  apply Hno. by exists "AKIAEXAMPLE".
Defined.

Lemma construction_result int_of_str float_of_str env :
  Config.AWSConfig int_of_str float_of_str env None =
  (Some (Config.__init__ int_of_str float_of_str env (Config.__new__ None)).1,
   Config.construction_error int_of_str float_of_str env).
Proof.
  rewrite <- first_construction. unfold Config.AWSConfig.
  by destruct (Config.__init__ _ _ _ _).
Qed.

Lemma config_singleton_witness :
  ∃ self,
    Config.AWSConfig sample_int_of_str sample_float_of_str sample_env None
    = (Some self, None) ∧
    Config.AWSConfig sample_int_of_str sample_float_of_str ∅ (Some self)
    = (Some self, None).
Proof.
  assert (Config.AWSConfig sample_int_of_str sample_float_of_str sample_env None
          = (Some (Config.__init__ sample_int_of_str sample_float_of_str
                     sample_env (Config.__new__ None)).1, None)) as Hok.
  { rewrite construction_result. f_equal. }
  eexists. split; [exact Hok|].
  exact (config_singleton sample_int_of_str sample_float_of_str sample_env ∅
           None _ Hok).
Defined.

Lemma config_session_kwargs_witness :
  ∃ self,
    Config.AWSConfig sample_int_of_str sample_float_of_str sample_env None
    = (Some self, None) ∧
    Config.get_boto3_session_kwargs self =
      inr (<["aws_access_key_id" := Config.VStr "AKIAEXAMPLE"]>
             (<["aws_secret_access_key" := Config.VStr "secret"]>
                (<["region_name" := Config.VStr "us-east-1"]> ∅))).
Proof.
  assert (Config.AWSConfig sample_int_of_str sample_float_of_str sample_env None
          = (Some (Config.__init__ sample_int_of_str sample_float_of_str
                     sample_env (Config.__new__ None)).1, None)) as Hok.
  { rewrite construction_result. f_equal. }
  eexists. split; [exact Hok|].
  destruct (config_session_kwargs sample_int_of_str sample_float_of_str
              sample_env _ Hok) as (key_id & secret & Hk & _ & Hs & _ & ->).
  assert (key_id = "AKIAEXAMPLE") as -> by (by injection Hk).
  assert (secret = "secret") as -> by (by injection Hs).
  reflexivity.
Defined.

Lemma config_retry_witness :
  ∃ _instance e,
    Config.AWSConfig sample_int_of_str sample_float_of_str ∅ None
    = (_instance, Some e) ∧
    (Config.AWSConfig sample_int_of_str sample_float_of_str sample_env
       _instance).2 = None.
Proof.
  assert (Config.AWSConfig sample_int_of_str sample_float_of_str ∅ None
          = (Some (Config.__init__ sample_int_of_str sample_float_of_str
                     ∅ (Config.__new__ None)).1,
             Some (Config.ValueError_missing
                     ["AWS_ACCESS_KEY_ID"; "AWS_SECRET_ACCESS_KEY"]))) as Hfail.
  { rewrite construction_result. f_equal. }
  eexists _, _. split; [exact Hfail|].
  rewrite (config_retry sample_int_of_str sample_float_of_str ∅ sample_env _ _
             Hfail).
  by rewrite construction_result.
Defined.

(** ** The setup check *)



(** ** The category constants of the configuration *)

Section ConfigConstants.

Import Config.

Variable int_of_str : string → option Z.
Variable float_of_str : string → option Q.

(** X22.  Whatever the environment holds, a configuration that was built has
    the category constants "ERROR_CODES", "SCHEMATICS" and "GENERAL", the
    labels the router returns and the ingestion writes; the environment
    cannot change them. *)
Theorem config_category_constants (env : gmap string string)
    (self : gmap string value) :
  AWSConfig int_of_str float_of_str env None = (Some self, None) →
  self !! "CATEGORY_ERROR_CODES" = Some (VStr CATEGORY_ERROR_CODES) ∧
  self !! "CATEGORY_SCHEMATICS" = Some (VStr CATEGORY_SCHEMATICS) ∧
  self !! "CATEGORY_GENERAL" = Some (VStr CATEGORY_GENERAL).
Proof.
  unfold AWSConfig, __init__, __new__. rewrite lookup_singleton_eq. simpl.
  destruct (int_of_str _); [|done]. destruct (float_of_str _); [|done].
  destruct (_validate _); [done|]. intros [= <-].
  split; [|split].
  - by rewrite !lookup_insert_ne, lookup_insert_eq by done.
  - by rewrite !lookup_insert_ne, lookup_insert_eq by done.
  - by rewrite !lookup_insert_ne, lookup_insert_eq by done.
Qed.

End ConfigConstants.

Lemma config_category_constants_witness :
  ∃ self,
    Config.AWSConfig sample_int_of_str sample_float_of_str
      (<["CATEGORY_GENERAL" := "OTHER"]> sample_env) None = (Some self, None) ∧
    self !! "CATEGORY_GENERAL" = Some (Config.VStr "GENERAL").
Proof.
  assert (Config.AWSConfig sample_int_of_str sample_float_of_str
            (<["CATEGORY_GENERAL" := "OTHER"]> sample_env) None
          = (Some (Config.__init__ sample_int_of_str sample_float_of_str
                     (<["CATEGORY_GENERAL" := "OTHER"]> sample_env)
                     (Config.__new__ None)).1, None)) as Hok.
  { rewrite construction_result. f_equal. }
  eexists. split; [exact Hok|].
  by destruct (config_category_constants sample_int_of_str sample_float_of_str
                 _ _ Hok) as (_ & _ & ->).
Defined.
